(** * CineTracker: the [useWatchlist] hook

    A shallow embedding of [hooks/useWatchlist.js]: the hook keeps the three
    user lists (watchlist, watched, favorites) in React state and persists
    them to Firestore (signed-in user) or to [localStorage] (guest).

    Layout of the development:
    - JavaScript values, property access and strict equality;
    - [JSON.stringify] and [JSON.parse] on those values;
    - the world the hook runs in (React state, [localStorage], the Firestore
      [users] collection, the toast log), the effects on it, and function
      bodies as trees of effects with [try], [catch] and [finally];
    - the hook's functions, one definition per source function (the three
      membership queries are not needed here and left out);
    - the scheduler: auth changes, UI calls and completions of pending
      Firestore requests, as a labelled step function;
    - lemmas and the theorems about the hook. *)

From Stdlib Require Import ZArith NArith List String Ascii Bool Lia.
From Stdlib Require Import DecimalString DecimalN DecimalFacts.
Import ListNotations.

Local Open Scope string_scope.
Local Open Scope list_scope.

(** String concatenation is written [+++]; [++] stays list concatenation. *)
Infix "+++" := String.append (right associativity, at level 60).

(* ================================================================== *)
(** ** JavaScript values *)

(** The values that can reach the hook's state: what [JSON.parse] and a
    Firestore document can hold, plus [undefined].  A number [VNum n] is the
    JavaScript number whose value is the integer [n] (movie ids and ratings
    are integers, far below 2^53); a string is a sequence of code units
    below 256; an object is its list of own properties in insertion order
    (the keys of the hook's objects are names, never array indices, which
    JavaScript would enumerate first). *)
#[warnings="-register-all"]
Inductive value : Type :=
| VUndefined
| VNull
| VBool (b : bool)
| VNum (n : Z)
| VStr (s : string)
| VArr (items : list value)
| VObj (props : list (string * value)).

(** Exceptions that the hook can meet. *)
Inductive exn : Type :=
| TypeError            (* property read on null/undefined, call of a non-function *)
| SyntaxError          (* JSON.parse *)
| QuotaExceededError   (* localStorage.setItem *)
| SecurityError        (* localStorage access denied *)
| FirebaseError.       (* any failure reported by the Firestore client *)

(** Result of a computation that may throw. *)
Inductive Res (A : Type) : Type :=
| Ok (a : A)
| Throw (e : exn).
Arguments Ok {A} a.
Arguments Throw {A} e.

Definition res_bind {A B} (r : Res A) (k : A -> Res B) : Res B :=
  match r with
  | Ok a => k a
  | Throw e => Throw e
  end.

Declare Scope res_scope.
Delimit Scope res_scope with res.
Notation "x <-- r ;; k" := (res_bind r (fun x => k))
  (at level 61, r at next level, right associativity) : res_scope.

(** Own-property lookup in a property list. *)
Fixpoint lookup (k : string) (props : list (string * value)) : option value :=
  match props with
  | [] => None
  | (k', v) :: rest => if String.eqb k k' then Some v else lookup k rest
  end.

(** Property assignment [o[k] = v] on a property list: an existing key keeps
    its position, a new key goes last. *)
Fixpoint set_prop (k : string) (v : value) (props : list (string * value))
  : list (string * value) :=
  match props with
  | [] => [(k, v)]
  | (k', v') :: rest =>
      if String.eqb k k' then (k', v) :: rest else (k', v') :: set_prop k v rest
  end.

(** [v.k] for the property names the hook reads ([watchlist], [watched],
    [favorites], [id]): none of them is defined on the prototypes of
    arrays, strings, numbers or booleans, so only objects can answer. *)
Definition get (v : value) (k : string) : Res value :=
  match v with
  | VUndefined | VNull => Throw TypeError
  | VObj props =>
      match lookup k props with
      | Some x => Ok x
      | None => Ok VUndefined
      end
  | _ => Ok VUndefined
  end.

(** [===] on values.  Arrays and objects compare by reference; the hook
    only ever compares a stored item with a fresh id argument, so two
    arrays or two objects are never the same reference. *)
Definition strict_eq (a b : value) : bool :=
  match a, b with
  | VUndefined, VUndefined => true
  | VNull, VNull => true
  | VBool x, VBool y => Bool.eqb x y
  | VNum x, VNum y => Z.eqb x y
  | VStr x, VStr y => String.eqb x y
  | _, _ => false
  end.

(** Truthiness, as used by [x || []] and [if (savedData)]. *)
Definition truthy (v : value) : bool :=
  match v with
  | VUndefined | VNull => false
  | VBool b => b
  | VNum n => negb (Z.eqb n 0)
  | VStr s => negb (String.eqb s "")
  | VArr _ | VObj _ => true
  end.

(** [v || []] *)
Definition or_empty (v : value) : value :=
  if truthy v then v else VArr [].

(** [v.filter(cb)], [v.map(cb)]: only arrays have these methods. *)
Definition as_array (v : value) : Res (list value) :=
  match v with
  | VArr l => Ok l
  | VUndefined | VNull => Throw TypeError   (* cannot read properties of undefined *)
  | _ => Throw TypeError                    (* v.filter is not a function *)
  end.

Fixpoint filterM (cb : value -> Res bool) (l : list value) : Res (list value) :=
  match l with
  | [] => Ok []
  | x :: rest =>
      (keep <-- cb x ;;
       rest' <-- filterM cb rest ;;
       Ok (if keep then x :: rest' else rest'))%res
  end.

Fixpoint mapM (cb : value -> Res value) (l : list value) : Res (list value) :=
  match l with
  | [] => Ok []
  | x :: rest =>
      (y <-- cb x ;;
       rest' <-- mapM cb rest ;;
       Ok (y :: rest'))%res
  end.

(* ================================================================== *)
(** ** JSON text *)

(** The double quote character. *)
Definition dquote : ascii := ascii_of_nat 34.

(** Test data is written with single quotes; [q] turns them into double
    quotes: [q "{'a':1}"] is the text [{"a":1}]. *)
Fixpoint q (s : string) : string :=
  match s with
  | EmptyString => EmptyString
  | String c rest => String (if Ascii.eqb c "'" then dquote else c) (q rest)
  end.

Definition is_digit (c : ascii) : bool :=
  (48 <=? nat_of_ascii c)%nat && (nat_of_ascii c <=? 57)%nat.

Definition is_ws (c : ascii) : bool :=
  let n := nat_of_ascii c in
  Nat.eqb n 32 || Nat.eqb n 9 || Nat.eqb n 10 || Nat.eqb n 13.

(** [s] without its first character, when that character is [c]. *)
Definition starts_with (c : ascii) (s : string) : option string :=
  match s with
  | String c' rest => if Ascii.eqb c' c then Some rest else None
  | EmptyString => None
  end.

(** *** Numbers *)

Definition print_N (n : N) : string := NilZero.string_of_uint (N.to_uint n).

(** Number to string, for integers: an optional minus sign and the decimal
    digits. *)
Definition print_Z (n : Z) : string :=
  match n with
  | Zneg p => String "-" (print_N (Npos p))
  | _ => print_N (Z.to_N n)
  end.

Fixpoint span_digits (s : string) : string * string :=
  match s with
  | String c rest =>
      if is_digit c
      then let (ds, r) := span_digits rest in (String c ds, r)
      else (EmptyString, s)
  | EmptyString => (EmptyString, EmptyString)
  end.

Definition starts_fraction (s : string) : bool :=
  match s with
  | String c _ => Ascii.eqb c "." || Ascii.eqb c "e" || Ascii.eqb c "E"
  | EmptyString => false
  end.

Definition leading_zero (ds : string) : bool :=
  match ds with
  | String c (String _ _) => Ascii.eqb c "0"
  | _ => false
  end.

(** The digits of a JSON number: ["0"] alone or a digit string without a
    leading zero. *)
Definition parse_nat (s : string) : option (N * string) :=
  let (ds, rest) := span_digits s in
  if leading_zero ds || starts_fraction rest then None
  else option_map (fun u => (N.of_uint u, rest)) (NilZero.uint_of_string ds).

(** A JSON number literal.  Literals with a fraction or an exponent denote
    numbers outside [VNum] and are not accepted. *)
Definition parse_number (s : string) : option (value * string) :=
  match starts_with "-" s with
  | Some rest => option_map (fun '(n, r) => (VNum (- Z.of_N n), r)) (parse_nat rest)
  | None => option_map (fun '(n, r) => (VNum (Z.of_N n), r)) (parse_nat s)
  end.

(** *** Strings *)

Definition hex_digit (n : nat) : ascii :=
  if (n <? 10)%nat then ascii_of_nat (48 + n) else ascii_of_nat (87 + n).

Definition hex_value (c : ascii) : option nat :=
  let n := nat_of_ascii c in
  if is_digit c then Some (n - 48)%nat
  else if (97 <=? n)%nat && (n <=? 102)%nat then Some (n - 87)%nat
  else if (65 <=? n)%nat && (n <=? 70)%nat then Some (n - 55)%nat
  else None.

(** QuoteJSONString, one code unit. *)
Definition escape_char (c : ascii) : string :=
  let n := nat_of_ascii c in
  if Nat.eqb n 34 then String "\" (String dquote EmptyString)
  else if Nat.eqb n 92 then "\\"
  else if Nat.eqb n 8 then "\b"
  else if Nat.eqb n 12 then "\f"
  else if Nat.eqb n 10 then "\n"
  else if Nat.eqb n 13 then "\r"
  else if Nat.eqb n 9 then "\t"
  else if (n <? 32)%nat then
    "\u00" +++ String (hex_digit (n / 16)) (String (hex_digit (n mod 16)) EmptyString)
  else String c EmptyString.

Fixpoint escape (s : string) : string :=
  match s with
  | EmptyString => EmptyString
  | String c rest => escape_char c +++ escape rest
  end.

Definition quote (s : string) : string :=
  String dquote (escape s +++ String dquote EmptyString).

Definition unescape (e : ascii) : option ascii :=
  let n := nat_of_ascii e in
  if Nat.eqb n 34 then Some dquote
  else if Nat.eqb n 92 then Some "\"%char
  else if Nat.eqb n 47 then Some "/"%char
  else if Nat.eqb n 98 then Some (ascii_of_nat 8)
  else if Nat.eqb n 102 then Some (ascii_of_nat 12)
  else if Nat.eqb n 110 then Some (ascii_of_nat 10)
  else if Nat.eqb n 114 then Some (ascii_of_nat 13)
  else if Nat.eqb n 116 then Some (ascii_of_nat 9)
  else None.

Definition hex4 (a b c d : ascii) : option nat :=
  match hex_value a, hex_value b, hex_value c, hex_value d with
  | Some x, Some y, Some z, Some w => Some (((x * 16 + y) * 16 + z) * 16 + w)%nat
  | _, _, _, _ => None
  end.

(** The characters of a string literal after its opening quote, up to and
    including the closing quote.  Escapes of code units above 255 denote
    strings outside [VStr] and are not accepted. *)
Fixpoint parse_chars (s : string) : option (string * string) :=
  match s with
  | EmptyString => None
  | String c rest =>
      if Ascii.eqb c dquote then Some (EmptyString, rest)
      else if Ascii.eqb c "\" then
        match rest with
        | EmptyString => None
        | String e rest1 =>
            if Ascii.eqb e "u" then
              match rest1 with
              | String h1 (String h2 (String h3 (String h4 rest2))) =>
                  match hex4 h1 h2 h3 h4 with
                  | Some n =>
                      if (n <? 256)%nat then
                        option_map (fun '(str, r) => (String (ascii_of_nat n) str, r))
                                   (parse_chars rest2)
                      else None
                  | None => None
                  end
              | _ => None
              end
            else
              match unescape e with
              | Some c' =>
                  option_map (fun '(str, r) => (String c' str, r)) (parse_chars rest1)
              | None => None
              end
        end
      else if (nat_of_ascii c <? 32)%nat then None
      else option_map (fun '(str, r) => (String c str, r)) (parse_chars rest)
  end.

(** *** Values *)

Definition is_undefined (v : value) : bool :=
  match v with VUndefined => true | _ => false end.

(** The members of an object literal; a property whose value is
    [undefined] is left out. *)
Section Members.
Variable pr : value -> string.

Fixpoint members_text (props : list (string * value)) : list string :=
  match props with
  | [] => []
  | (k, v) :: rest =>
      if is_undefined v then members_text rest
      else (quote k +++ ":" +++ pr v) :: members_text rest
  end.
End Members.

(** SerializeJSONProperty: [undefined] prints as [null] inside an array and
    drops its property inside an object. *)
Fixpoint print (v : value) : string :=
  match v with
  | VUndefined => "null"
  | VNull => "null"
  | VBool true => "true"
  | VBool false => "false"
  | VNum n => print_Z n
  | VStr s => quote s
  | VArr items => "[" +++ String.concat "," (map print items) +++ "]"
  | VObj props =>
      "{" +++ String.concat "," (members_text print props) +++ "}"
  end.

(** [JSON.stringify(v)]; [None] is the result [undefined]. *)
Definition JSON_stringify (v : value) : option string :=
  match v with
  | VUndefined => None
  | _ => Some (print v)
  end.

Fixpoint skip_ws (s : string) : string :=
  match s with
  | String c rest => if is_ws c then skip_ws rest else s
  | EmptyString => EmptyString
  end.

(** [s] with the literal [lit] removed from its front. *)
Fixpoint expect (lit s : string) : option string :=
  match lit, s with
  | EmptyString, _ => Some s
  | String a lit', String b s' => if Ascii.eqb a b then expect lit' s' else None
  | String _ _, EmptyString => None
  end.

(** InternalizeJSONProperty on the members of an object literal: a repeated
    key keeps its first position and takes its last value. *)
Definition object_of_members (members : list (string * value)) : list (string * value) :=
  fold_left (fun acc kv => set_prop (fst kv) (snd kv) acc) members [].

(** Recursive descent over the JSON grammar; [fuel] bounds the nesting and
    the number of elements, the text length is always enough. *)
Fixpoint parse_value (fuel : nat) (s : string) : option (value * string) :=
  match fuel with
  | O => None
  | S f =>
      match skip_ws s with
      | EmptyString => None
      | String c rest =>
          if Ascii.eqb c "[" then
            match starts_with "]" (skip_ws rest) with
            | Some r => Some (VArr [], r)
            | None => option_map (fun '(l, r) => (VArr l, r)) (parse_elements f rest)
            end
          else if Ascii.eqb c "{" then
            match starts_with "}" (skip_ws rest) with
            | Some r => Some (VObj [], r)
            | None => option_map (fun '(m, r) => (VObj (object_of_members m), r))
                                 (parse_members f rest)
            end
          else if Ascii.eqb c dquote then
            option_map (fun '(str, r) => (VStr str, r)) (parse_chars rest)
          else if Ascii.eqb c "n" then
            option_map (fun r => (VNull, r)) (expect "ull" rest)
          else if Ascii.eqb c "t" then
            option_map (fun r => (VBool true, r)) (expect "rue" rest)
          else if Ascii.eqb c "f" then
            option_map (fun r => (VBool false, r)) (expect "alse" rest)
          else parse_number (String c rest)
      end
  end
with parse_elements (fuel : nat) (s : string) : option (list value * string) :=
  match fuel with
  | O => None
  | S f =>
      match parse_value f s with
      | None => None
      | Some (v, r) =>
          match skip_ws r with
          | String c r' =>
              if Ascii.eqb c "," then
                option_map (fun '(l, r2) => (v :: l, r2)) (parse_elements f r')
              else if Ascii.eqb c "]" then Some ([v], r')
              else None
          | EmptyString => None
          end
      end
  end
with parse_members (fuel : nat) (s : string) : option (list (string * value) * string) :=
  match fuel with
  | O => None
  | S f =>
      match skip_ws s with
      | String c0 s1 =>
          if Ascii.eqb c0 dquote then
            match parse_chars s1 with
            | None => None
            | Some (k, r1) =>
                match skip_ws r1 with
                | String c1 r2 =>
                    if Ascii.eqb c1 ":" then
                      match parse_value f r2 with
                      | None => None
                      | Some (v, r3) =>
                          match skip_ws r3 with
                          | String c r4 =>
                              if Ascii.eqb c "," then
                                option_map (fun '(m, r5) => ((k, v) :: m, r5))
                                           (parse_members f r4)
                              else if Ascii.eqb c "}" then Some ([(k, v)], r4)
                              else None
                          | EmptyString => None
                          end
                      end
                    else None
                | EmptyString => None
                end
            end
          else None
      | EmptyString => None
      end
  end.

(** [JSON.parse(text)] *)
Definition JSON_parse (text : string) : Res value :=
  match parse_value (2 * String.length text + 2) text with
  | Some (v, rest) =>
      match skip_ws rest with
      | EmptyString => Ok v
      | String _ _ => Throw SyntaxError
      end
  | None => Throw SyntaxError
  end.

(* ================================================================== *)
(** ** The world of the hook *)

(** Argument of [toast(...)]. *)
Record Toast : Type := mkToast {
  title : string;
  description : string;
  variant : option string
}.

(** A Firestore document: its top-level fields. *)
Definition fields : Type := list (string * value).

Fixpoint lookup_doc (uid : string) (docs : list (string * fields)) : option fields :=
  match docs with
  | [] => None
  | (k, d) :: rest => if String.eqb uid k then Some d else lookup_doc uid rest
  end.

Fixpoint store_doc (uid : string) (d : fields) (docs : list (string * fields))
  : list (string * fields) :=
  match docs with
  | [] => [(uid, d)]
  | (k, d') :: rest =>
      if String.eqb uid k then (k, d) :: rest else (k, d') :: store_doc uid d rest
  end.

(** Firestore writes several fields into a document: each written field
    replaces the field of that name or is added; the other fields stay. *)
Definition write_fields (written : fields) (d : fields) : fields :=
  fold_left (fun acc kv => set_prop (fst kv) (snd kv) acc) written d.

Fixpoint getItem_in (k : string) (items : list (string * string)) : option string :=
  match items with
  | [] => None
  | (k', v) :: rest => if String.eqb k k' then Some v else getItem_in k rest
  end.

Fixpoint setItem_in (k v : string) (items : list (string * string))
  : list (string * string) :=
  match items with
  | [] => [(k, v)]
  | (k', v') :: rest =>
      if String.eqb k k' then (k', v) :: rest else (k', v') :: setItem_in k v rest
  end.

(** A request sent to Firestore. *)
Inductive request : Type :=
| ReqGetDoc (uid : string)
| ReqSetDocMerge (uid : string) (written : fields)
| ReqUpdateDoc (uid : string) (written : fields).

Record World : Type := mkWorld {
  (* React state of the hook *)
  data : value;                          (* useState: data *)
  loading : bool;                        (* useState: loading *)
  (* useAuth() *)
  user : option string;                  (* user.uid, None when signed out *)
  initialized : bool;
  (* collaborators *)
  toasts : list Toast;                   (* calls of toast(), oldest first *)
  console : list string;                 (* console.error, oldest first *)
  localStorage : list (string * string);
  storage_readable : bool;               (* false: getItem throws *)
  storage_writable : bool;               (* false: setItem throws *)
  users : list (string * fields);        (* Firestore collection "users" *)
  online : bool;                         (* false: every Firestore call fails *)
  requests : list request;               (* the calls Firestore has handled, oldest first *)
  clock : string                         (* new Date().toISOString() *)
}.

Definition with_data (v : value) (w : World) : World :=
  mkWorld v (loading w) (user w) (initialized w) (toasts w) (console w)
          (localStorage w) (storage_readable w) (storage_writable w) (users w)
          (online w) (requests w) (clock w).

Definition with_loading (b : bool) (w : World) : World :=
  mkWorld (data w) b (user w) (initialized w) (toasts w) (console w)
          (localStorage w) (storage_readable w) (storage_writable w) (users w)
          (online w) (requests w) (clock w).

Definition with_auth (u : option string) (w : World) : World :=
  mkWorld (data w) (loading w) u true (toasts w) (console w) (localStorage w)
          (storage_readable w) (storage_writable w) (users w) (online w)
          (requests w) (clock w).

Definition with_toast (t : Toast) (w : World) : World :=
  mkWorld (data w) (loading w) (user w) (initialized w) (toasts w ++ [t])
          (console w) (localStorage w) (storage_readable w)
          (storage_writable w) (users w) (online w) (requests w) (clock w).

Definition with_console (msg : string) (w : World) : World :=
  mkWorld (data w) (loading w) (user w) (initialized w) (toasts w)
          (console w ++ [msg]) (localStorage w) (storage_readable w)
          (storage_writable w) (users w) (online w) (requests w) (clock w).

Definition with_localStorage (items : list (string * string)) (w : World) : World :=
  mkWorld (data w) (loading w) (user w) (initialized w) (toasts w) (console w)
          items (storage_readable w) (storage_writable w) (users w) (online w)
          (requests w) (clock w).

Definition with_users (docs : list (string * fields)) (w : World) : World :=
  mkWorld (data w) (loading w) (user w) (initialized w) (toasts w) (console w)
          (localStorage w) (storage_readable w) (storage_writable w) docs
          (online w) (requests w) (clock w).

Definition with_online (b : bool) (w : World) : World :=
  mkWorld (data w) (loading w) (user w) (initialized w) (toasts w) (console w)
          (localStorage w) (storage_readable w) (storage_writable w) (users w)
          b (requests w) (clock w).

Definition with_request (r : request) (w : World) : World :=
  mkWorld (data w) (loading w) (user w) (initialized w) (toasts w) (console w)
          (localStorage w) (storage_readable w) (storage_writable w) (users w)
          (online w) (requests w ++ [r]) (clock w).

(** *** Effects *)

(** What the hook asks of its surroundings.  The three Firestore requests
    are the ones the source awaits. *)
Inductive eff : Type -> Type :=
| SetData (v : value) : eff unit
| SetLoading (b : bool) : eff unit
| ShowToast (t : Toast) : eff unit
| ConsoleError (msg : string) : eff unit
| GetItem (key : string) : eff (option string)
| SetItem (key text : string) : eff unit
| Now : eff string
| GetDoc (uid : string) : eff (option fields)
| SetDocMerge (uid : string) (written : fields) : eff unit
| UpdateDoc (uid : string) (written : fields) : eff unit.

Definition is_async {B} (e : eff B) : bool :=
  match e with
  | GetDoc _ | SetDocMerge _ _ | UpdateDoc _ _ => true
  | _ => false
  end.

(** What each request does to the world and what it answers.
    - [getDoc] answers the document or its absence;
    - [setDoc(ref, written, {merge: true})] creates the document when it is
      absent; on an existing document it replaces the values of the fields
      named in [written] and leaves the fields it does not name untouched
      (Firestore's [SetOptions.merge]).  The hook's merge write names three
      arrays, and an array is replaced whole;
    - [updateDoc(ref, written)] replaces the written fields of an existing
      document and fails when there is none.
    A request takes effect, and is logged, when Firestore handles it.
    Firestore's validation of field values is not part of the model. *)
Definition handle {B} (e : eff B) (w : World) : Res B * World :=
  match e in eff T return Res T * World with
  | SetData v => (Ok tt, with_data v w)
  | SetLoading b => (Ok tt, with_loading b w)
  | ShowToast t => (Ok tt, with_toast t w)
  | ConsoleError msg => (Ok tt, with_console msg w)
  | GetItem key =>
      if storage_readable w then (Ok (getItem_in key (localStorage w)), w)
      else (Throw SecurityError, w)
  | SetItem key text =>
      if storage_writable w
      then (Ok tt, with_localStorage (setItem_in key text (localStorage w)) w)
      else (Throw QuotaExceededError, w)
  | Now => (Ok (clock w), w)
  | GetDoc uid =>
      let w := with_request (ReqGetDoc uid) w in
      if online w then (Ok (lookup_doc uid (users w)), w)
      else (Throw FirebaseError, w)
  | SetDocMerge uid written =>
      let w := with_request (ReqSetDocMerge uid written) w in
      if online w then
        let old := match lookup_doc uid (users w) with
                   | Some d => d
                   | None => []
                   end in
        (Ok tt, with_users (store_doc uid (write_fields written old) (users w)) w)
      else (Throw FirebaseError, w)
  | UpdateDoc uid written =>
      let w := with_request (ReqUpdateDoc uid written) w in
      if online w then
        match lookup_doc uid (users w) with
        | Some old =>
            (Ok tt, with_users (store_doc uid (write_fields written old) (users w)) w)
        | None => (Throw FirebaseError, w)
        end
      else (Throw FirebaseError, w)
  end.

(** *** Programs *)

(** A JavaScript function body as a tree: it returns, throws, or performs an
    effect and continues with the answer (or with the exception the effect
    threw). *)
Inductive Prog (A : Type) : Type :=
| Ret (a : A)
| Raise (e : exn)
| Vis {B : Type} (e : eff B) (k : Res B -> Prog A).
Arguments Ret {A} a.
Arguments Raise {A} e.
Arguments Vis {A B} e k.

Definition perform {B} (e : eff B) : Prog B :=
  Vis e (fun r => match r with Ok b => Ret b | Throw x => Raise x end).

Definition lift {A} (r : Res A) : Prog A :=
  match r with Ok a => Ret a | Throw e => Raise e end.

Fixpoint bind {A B} (p : Prog A) (f : A -> Prog B) : Prog B :=
  match p with
  | Ret a => f a
  | Raise e => Raise e
  | Vis e k => Vis e (fun r => bind (k r) f)
  end.

(** [try { p } catch (error) { h error }] *)
Fixpoint try_catch {A} (p : Prog A) (h : exn -> Prog A) : Prog A :=
  match p with
  | Ret a => Ret a
  | Raise e => h e
  | Vis e k => Vis e (fun r => try_catch (k r) h)
  end.

(** [try { p } finally { fin }] *)
Fixpoint finally {A} (p : Prog A) (fin : Prog unit) : Prog A :=
  match p with
  | Ret a => bind fin (fun _ => Ret a)
  | Raise e => bind fin (fun _ => Raise e)
  | Vis e k => Vis e (fun r => finally (k r) fin)
  end.

Declare Scope prog_scope.
Delimit Scope prog_scope with prog.
Notation "x <- p ;; k" := (bind p (fun x => k))
  (at level 61, p at next level, right associativity) : prog_scope.
Notation "p ;; k" := (bind p (fun _ => k))
  (at level 61, right associativity) : prog_scope.
Local Open Scope prog_scope.

(** Run a program to its end, every request answered at once. *)
Fixpoint run {A} (p : Prog A) (w : World) : Res A * World :=
  match p with
  | Ret a => (Ok a, w)
  | Raise e => (Throw e, w)
  | Vis e k => let (r, w') := handle e w in run (k r) w'
  end.

(** A function suspended at an [await]. *)
Inductive task : Type :=
| Suspended {B : Type} (request : eff B) (k : Res B -> Prog unit).

Inductive outcome : Type :=
| Finished (r : Res unit)       (* the promise is fulfilled or rejected *)
| Parked (t : task).            (* the function waits for Firestore *)

(** Run a program up to its next [await]. *)
Fixpoint advance (p : Prog unit) (w : World) : outcome * World :=
  match p with
  | Ret _ => (Finished (Ok tt), w)
  | Raise e => (Finished (Throw e), w)
  | Vis e k =>
      if is_async e then (Parked (Suspended e k), w)
      else let (r, w') := handle e w in advance (k r) w'
  end.

(* ================================================================== *)
(** ** The hook *)

(** The [localStorage] key of the lists. *)
Definition storage_key : string := "cinetracker-data".

(** [{ watchlist: [], watched: [], favorites: [] }] *)
Definition empty_fields : fields :=
  [("watchlist", VArr []); ("watched", VArr []); ("favorites", VArr [])].

Definition empty_lists : value := VObj empty_fields.

(** [userData.k] on the plain object returned by [userDoc.data()]. *)
Definition field (userData : fields) (k : string) : value :=
  match lookup k userData with
  | Some v => v
  | None => VUndefined
  end.

Definition offline_toast : Toast :=
  mkToast "Using offline data"
          "Unable to sync with server, using local data."
          (Some "destructive").

Definition saved_locally_toast : Toast :=
  mkToast "Saved locally"
          "Data saved locally, will sync when connection is restored."
          (Some "destructive").

(** [loadLocalData] *)
Definition loadLocalData : Prog unit :=
  finally
    (try_catch
       (savedData <- perform (GetItem storage_key) ;;
        match savedData with
        | Some text =>
            if String.eqb text "" then Ret tt
            else (parsed <- lift (JSON_parse text) ;;
                  perform (SetData parsed))
        | None => Ret tt
        end)
       (fun error => perform (ConsoleError "Error parsing saved data:")))
    (perform (SetLoading false)).

(** [loadUserData], with the [user] of the render that created it.
    [getDbInstance()] and [doc(db, "users", user.uid)] sit inside the [try];
    a failure there is a failure of the request. *)
Definition loadUserData (user : option string) : Prog unit :=
  match user with
  | None => Ret tt
  | Some uid =>
      finally
        (try_catch
           (userDoc <- perform (GetDoc uid) ;;
            match userDoc with
            | Some userData =>
                perform (SetData (VObj
                  [("watchlist", or_empty (field userData "watchlist"));
                   ("watched", or_empty (field userData "watched"));
                   ("favorites", or_empty (field userData "favorites"))]))
            | None =>
                perform (SetDocMerge uid empty_fields) ;;
                perform (SetData empty_lists)
            end)
           (fun error =>
              perform (ConsoleError "Error loading user data:") ;;
              loadLocalData ;;
              perform (ShowToast offline_toast)))
        (perform (SetLoading false))
  end.

(** The body of the hook's [useEffect], for the [user] and [initialized] of
    the render it runs after.  [loadUserData()] is not awaited, and nothing
    follows it. *)
Definition effect (user : option string) (initialized : bool) : Prog unit :=
  if negb initialized then Ret tt
  else match user with
       | Some _ => loadUserData user
       | None => loadLocalData
       end.

(** The text handed to [localStorage.setItem]: [setItem] turns its argument
    into a string. *)
Definition storage_text (v : value) : string :=
  match JSON_stringify v with
  | Some text => text
  | None => "undefined"
  end.

(** The own properties copied by [{...v}]; every caller has read a property
    of [v] as an array before, so [v] is an object. *)
Definition spread (v : value) : list (string * value) :=
  match v with
  | VObj props => props
  | _ => []
  end.

(** [saveData] *)
Definition saveData (user : option string) (newData : value) : Prog unit :=
  perform (SetData newData) ;;
  match user with
  | Some uid =>
      try_catch
        (perform (UpdateDoc uid (spread newData)))
        (fun error =>
           perform (ConsoleError "Error saving to Firestore:") ;;
           perform (SetItem storage_key (storage_text newData)) ;;
           perform (ShowToast saved_locally_toast))
  | None =>
      perform (SetItem storage_key (storage_text newData))
  end.

(** *** Mutations *)

(** A movie id, [{string|number}]. *)
Inductive ContentId : Type :=
| IdStr (s : string)
| IdNum (n : Z).

Definition id_value (id : ContentId) : value :=
  match id with
  | IdStr s => VStr s
  | IdNum n => VNum n
  end.

(** [data.k] read as an array. *)
Definition list_of (data : value) (k : string) : Res (list value) :=
  (v <-- get data k ;; as_array v)%res.

(** [items.filter((item) => item !== id)] *)
Definition without (id : ContentId) (items : list value) : list value :=
  filter (fun item => negb (strict_eq item (id_value id))) items.

(** [(item) => item.id !== id] *)
Definition id_differs (id : ContentId) (item : value) : Res bool :=
  (x <-- get item "id" ;; Ok (negb (strict_eq x (id_value id))))%res.

(** [(item) => item.id === id ? { ...item, rating } : item] *)
Definition rate (id : ContentId) (rating : Z) (item : value) : Res value :=
  (x <-- get item "id" ;;
   Ok (if strict_eq x (id_value id)
       then VObj (set_prop "rating" (VNum rating) (spread item))
       else item))%res.

(** [{ ...data, k: v }] *)
Definition with_list (data : value) (k : string) (items : list value) : value :=
  VObj (set_prop k (VArr items) (spread data)).

(** [s.split("T")[0]] *)
Fixpoint before_T (s : string) : string :=
  match s with
  | EmptyString => EmptyString
  | String c rest => if Ascii.eqb c "T" then EmptyString else String c (before_T rest)
  end.

Definition plain_toast (t d : string) : Toast := mkToast t d None.

(** Each mutation is the closure of one render: [data] and [user] are the
    values that render saw. *)
Definition addToWatchlist (data : value) (user : option string) (id : ContentId)
  : Prog unit :=
  items <- lift (list_of data "watchlist") ;;
  saveData user (with_list data "watchlist" (without id items ++ [id_value id])) ;;
  perform (ShowToast (plain_toast "Added to watchlist"
                                  "Item has been added to your watchlist.")).

Definition removeFromWatchlist (data : value) (user : option string) (id : ContentId)
  : Prog unit :=
  items <- lift (list_of data "watchlist") ;;
  saveData user (with_list data "watchlist" (without id items)) ;;
  perform (ShowToast (plain_toast "Removed from watchlist"
                                  "Item has been removed from your watchlist.")).

(** [rating = 0]: a missing rating is 0. *)
Definition addToWatched (data : value) (user : option string) (id : ContentId)
           (rating : option Z) : Prog unit :=
  let rating := match rating with Some r => r | None => 0%Z end in
  kept <- lift (items <-- list_of data "watched" ;; filterM (id_differs id) items)%res ;;
  now <- perform Now ;;
  saveData user
    (with_list data "watched"
       (kept ++ [VObj [("id", id_value id);
                       ("rating", VNum rating);
                       ("dateWatched", VStr (before_T now))]])) ;;
  perform (ShowToast (plain_toast "Marked as watched"
                                  "Item has been added to your watched list.")).

Definition removeFromWatched (data : value) (user : option string) (id : ContentId)
  : Prog unit :=
  kept <- lift (items <-- list_of data "watched" ;; filterM (id_differs id) items)%res ;;
  saveData user (with_list data "watched" kept) ;;
  perform (ShowToast (plain_toast "Removed from watched"
                                  "Item has been removed from your watched list.")).

Definition updateWatchedRating (data : value) (user : option string) (id : ContentId)
           (rating : Z) : Prog unit :=
  rated <- lift (items <-- list_of data "watched" ;; mapM (rate id rating) items)%res ;;
  saveData user (with_list data "watched" rated) ;;
  perform (ShowToast (plain_toast "Rating updated"
             ("Rating has been updated to " +++ print_Z rating +++ " stars."))).

Definition addToFavorites (data : value) (user : option string) (id : ContentId)
  : Prog unit :=
  items <- lift (list_of data "favorites") ;;
  saveData user (with_list data "favorites" (without id items ++ [id_value id])) ;;
  perform (ShowToast (plain_toast "Added to favorites"
                                  "Item has been added to your favorites.")).

Definition removeFromFavorites (data : value) (user : option string) (id : ContentId)
  : Prog unit :=
  items <- lift (list_of data "favorites") ;;
  saveData user (with_list data "favorites" (without id items)) ;;
  perform (ShowToast (plain_toast "Removed from favorites"
                                  "Item has been removed from your favorites.")).

(** The seven mutations the hook returns. *)
Inductive mutation : Type :=
| AddToWatchlist (id : ContentId)
| RemoveFromWatchlist (id : ContentId)
| AddToWatched (id : ContentId) (rating : option Z)
| RemoveFromWatched (id : ContentId)
| UpdateWatchedRating (id : ContentId) (rating : Z)
| AddToFavorites (id : ContentId)
| RemoveFromFavorites (id : ContentId).

Definition call (m : mutation) (data : value) (user : option string) : Prog unit :=
  match m with
  | AddToWatchlist id => addToWatchlist data user id
  | RemoveFromWatchlist id => removeFromWatchlist data user id
  | AddToWatched id rating => addToWatched data user id rating
  | RemoveFromWatched id => removeFromWatched data user id
  | UpdateWatchedRating id rating => updateWatchedRating data user id rating
  | AddToFavorites id => addToFavorites data user id
  | RemoveFromFavorites id => removeFromFavorites data user id
  end.

(** The list a mutation writes. *)
Definition own_list (m : mutation) : string :=
  match m with
  | AddToWatchlist _ | RemoveFromWatchlist _ => "watchlist"
  | AddToWatched _ _ | RemoveFromWatched _ | UpdateWatchedRating _ _ => "watched"
  | AddToFavorites _ | RemoveFromFavorites _ => "favorites"
  end.

(** *** ListState *)

(** The lists as the hook means them: ids in the watchlist and the
    favorites, [{id, rating, dateWatched}] entries in the watched list. *)
Record WatchedEntry : Type := mkEntry {
  entry_id : ContentId;
  entry_rating : Z;
  entry_dateWatched : string
}.

Record ListState : Type := mkListState {
  watchlist : list ContentId;
  watched : list WatchedEntry;
  favorites : list ContentId
}.

Definition entry_value (e : WatchedEntry) : value :=
  VObj [("id", id_value (entry_id e));
        ("rating", VNum (entry_rating e));
        ("dateWatched", VStr (entry_dateWatched e))].

(** The JavaScript object that holds a ListState. *)
Definition state_value (st : ListState) : value :=
  VObj [("watchlist", VArr (map id_value (watchlist st)));
        ("watched", VArr (map entry_value (watched st)));
        ("favorites", VArr (map id_value (favorites st)))].

Definition id_eqb (a b : ContentId) : bool :=
  match a, b with
  | IdStr x, IdStr y => String.eqb x y
  | IdNum x, IdNum y => Z.eqb x y
  | _, _ => false
  end.

(** A value has the three list properties. *)
Definition has_lists (v : value) : bool :=
  match v with
  | VObj props =>
      match lookup "watchlist" props, lookup "watched" props, lookup "favorites" props with
      | Some _, Some _, Some _ => true
      | _, _, _ => false
      end
  | _ => false
  end.

(* ================================================================== *)
(** ** The scheduler *)

(** The hook between two events: its world, the functions parked at an
    [await], and the exceptions that left a function (rejected promises). *)
Record System : Type := mkSystem {
  world : World;
  pending : list task;
  rejected : list exn
}.

Inductive event : Type :=
| AuthChanged (u : option string)   (* the auth listener reports a user or a sign-out *)
| Call (m : mutation)               (* a component calls a mutation of the last render *)
| Completes (i : nat)               (* Firestore answers the i-th pending request *)
| Network (up : bool)               (* the connection comes or goes *)
| RemoteWrite (uid : string) (written : fields).
                                    (* another client writes fields of a user document *)

(** Start a function and run it to its first [await]. *)
Definition start (p : Prog unit) (s : System) : System :=
  match advance p (world s) with
  | (Finished (Ok _), w) => mkSystem w (pending s) (rejected s)
  | (Finished (Throw e), w) => mkSystem w (pending s) (rejected s ++ [e])
  | (Parked t, w) => mkSystem w (pending s ++ [t]) (rejected s)
  end.

Fixpoint remove_nth {A} (i : nat) (l : list A) : list A :=
  match i, l with
  | _, [] => []
  | O, _ :: rest => rest
  | S j, x :: rest => x :: remove_nth j rest
  end.

Definition same_user (a b : option string) : bool :=
  match a, b with
  | None, None => true
  | Some x, Some y => String.eqb x y
  | _, _ => false
  end.

(** One event.  The effect has the dependencies [[user, initialized]]: it
    runs again when one of them changed. *)
Definition step (s : System) (ev : event) : System :=
  let w := world s in
  match ev with
  | AuthChanged u =>
      let s' := mkSystem (with_auth u w) (pending s) (rejected s) in
      if same_user (user w) u && initialized w then s'
      else start (effect u true) s'
  | Call m => start (call m (data w) (user w)) s
  | Completes i =>
      match nth_error (pending s) i with
      | Some (Suspended request k) =>
          let (r, w') := handle request w in
          start (k r) (mkSystem w' (remove_nth i (pending s)) (rejected s))
      | None => s
      end
  | Network up => mkSystem (with_online up w) (pending s) (rejected s)
  | RemoteWrite uid written =>
      let old := match lookup_doc uid (users w) with Some d => d | None => [] end in
      mkSystem (with_users (store_doc uid (write_fields written old) (users w)) w)
               (pending s) (rejected s)
  end.

Definition exec (s : System) (evs : list event) : System := fold_left step evs s.

(** The hook right after mount: default state, auth not yet initialized. *)
Definition mount (items : list (string * string)) (docs : list (string * fields))
           (up : bool) (now : string) : System :=
  mkSystem (mkWorld empty_lists true None false [] [] items true true docs up [] now)
           [] [].


(** *** Values that JSON text represents exactly *)

(** No [undefined] anywhere, no repeated key in an object. *)
#[warnings="-register-all"]
Inductive storable : value -> Prop :=
| storable_null : storable VNull
| storable_bool b : storable (VBool b)
| storable_num n : storable (VNum n)
| storable_str s : storable (VStr s)
| storable_arr items : Forall storable items -> storable (VArr items)
| storable_obj props :
    NoDup (map fst props) ->
    Forall (fun kv => storable (snd kv)) props ->
    storable (VObj props).

(** What may follow a value inside JSON text. *)
Definition delimited (rest : string) : bool :=
  match rest with
  | EmptyString => true
  | String c _ => Ascii.eqb c "," || Ascii.eqb c "]" || Ascii.eqb c "}"
  end.

(** The first character of a printed value. *)
Definition value_start (c : ascii) : bool :=
  Ascii.eqb c "[" || Ascii.eqb c "{" || Ascii.eqb c dquote || Ascii.eqb c "n"
  || Ascii.eqb c "t" || Ascii.eqb c "f" || Ascii.eqb c "-" || is_digit c.

Fixpoint all_digits (s : string) : bool :=
  match s with
  | EmptyString => true
  | String c rest => is_digit c && all_digits rest
  end.

(** One member of a printed object. *)
Definition member_text (kv : string * value) : string :=
  quote (fst kv) +++ ":" +++ print (snd kv).

(** The round trip of one value, as the induction on values carries it:
    the printed value, followed by anything that may follow a value, parses
    back to the value and leaves what followed. *)
Definition parses_back (v : value) : Prop :=
  storable v ->
  forall fuel rest,
    String.length (print v) <= fuel -> delimited rest = true ->
    parse_value fuel (print v +++ rest) = Some (v, rest).

(** *** The mutations on a ListState *)

(** The [newData] object that a mutation builds from the [data] of its
    render; [now] is the clock reading ([addToWatched] alone uses it). *)
Definition newData (m : mutation) (data : value) (now : string) : Res value :=
  match m with
  | AddToWatchlist id =>
      (items <-- list_of data "watchlist" ;;
       Ok (with_list data "watchlist" (without id items ++ [id_value id])))%res
  | RemoveFromWatchlist id =>
      (items <-- list_of data "watchlist" ;;
       Ok (with_list data "watchlist" (without id items)))%res
  | AddToWatched id rating =>
      (items <-- list_of data "watched" ;;
       kept <-- filterM (id_differs id) items ;;
       Ok (with_list data "watched"
             (kept ++ [VObj [("id", id_value id);
                             ("rating", VNum (match rating with
                                              | Some r => r
                                              | None => 0%Z
                                              end));
                             ("dateWatched", VStr (before_T now))]])))%res
  | RemoveFromWatched id =>
      (items <-- list_of data "watched" ;;
       kept <-- filterM (id_differs id) items ;;
       Ok (with_list data "watched" kept))%res
  | UpdateWatchedRating id rating =>
      (items <-- list_of data "watched" ;;
       rated <-- mapM (rate id rating) items ;;
       Ok (with_list data "watched" rated))%res
  | AddToFavorites id =>
      (items <-- list_of data "favorites" ;;
       Ok (with_list data "favorites" (without id items ++ [id_value id])))%res
  | RemoveFromFavorites id =>
      (items <-- list_of data "favorites" ;;
       Ok (with_list data "favorites" (without id items)))%res
  end.

(** The toast that closes a mutation. *)
Definition confirmation (m : mutation) : Toast :=
  match m with
  | AddToWatchlist _ =>
      plain_toast "Added to watchlist" "Item has been added to your watchlist."
  | RemoveFromWatchlist _ =>
      plain_toast "Removed from watchlist" "Item has been removed from your watchlist."
  | AddToWatched _ _ =>
      plain_toast "Marked as watched" "Item has been added to your watched list."
  | RemoveFromWatched _ =>
      plain_toast "Removed from watched" "Item has been removed from your watched list."
  | UpdateWatchedRating _ rating =>
      plain_toast "Rating updated"
                  ("Rating has been updated to " +++ print_Z rating +++ " stars.")
  | AddToFavorites _ =>
      plain_toast "Added to favorites" "Item has been added to your favorites."
  | RemoveFromFavorites _ =>
      plain_toast "Removed from favorites" "Item has been removed from your favorites."
  end.

Definition drop_id (id : ContentId) (ids : list ContentId) : list ContentId :=
  filter (fun y => negb (id_eqb y id)) ids.

Definition drop_entry (id : ContentId) (entries : list WatchedEntry) : list WatchedEntry :=
  filter (fun e => negb (id_eqb (entry_id e) id)) entries.

Definition set_rating (id : ContentId) (rating : Z) (e : WatchedEntry) : WatchedEntry :=
  if id_eqb (entry_id e) id
  then mkEntry (entry_id e) rating (entry_dateWatched e)
  else e.

(** The same seven functions read on a ListState. *)
Definition mutate (now : string) (m : mutation) (st : ListState) : ListState :=
  match m with
  | AddToWatchlist id =>
      mkListState (drop_id id (watchlist st) ++ [id]) (watched st) (favorites st)
  | RemoveFromWatchlist id =>
      mkListState (drop_id id (watchlist st)) (watched st) (favorites st)
  | AddToWatched id rating =>
      mkListState (watchlist st)
        (drop_entry id (watched st)
         ++ [mkEntry id (match rating with Some r => r | None => 0%Z end) (before_T now)])
        (favorites st)
  | RemoveFromWatched id =>
      mkListState (watchlist st) (drop_entry id (watched st)) (favorites st)
  | UpdateWatchedRating id rating =>
      mkListState (watchlist st) (map (set_rating id rating) (watched st)) (favorites st)
  | AddToFavorites id =>
      mkListState (watchlist st) (watched st) (drop_id id (favorites st) ++ [id])
  | RemoveFromFavorites id =>
      mkListState (watchlist st) (watched st) (drop_id id (favorites st))
  end.

(** How often an id occurs in a list of ids. *)
Definition count_id (x : ContentId) (ids : list ContentId) : nat :=
  List.length (filter (id_eqb x) ids).

(** The ids held by the list a mutation writes. *)
Definition own_ids (m : mutation) (st : ListState) : list ContentId :=
  match m with
  | AddToWatchlist _ | RemoveFromWatchlist _ => watchlist st
  | AddToWatched _ _ | RemoveFromWatched _ | UpdateWatchedRating _ _ =>
      map entry_id (watched st)
  | AddToFavorites _ | RemoveFromFavorites _ => favorites st
  end.

(** The entries of the watched list for one id. *)
Definition entries_of (x : ContentId) (entries : list WatchedEntry) : list WatchedEntry :=
  filter (fun e => id_eqb (entry_id e) x) entries.

(** A mutation called in world [w] reaches [localStorage.setItem]: the user
    is a guest, or the [updateDoc] of a signed-in user fails. *)
Definition remote_write_fails (uid : string) (w : World) : bool :=
  negb (online w) || match lookup_doc uid (users w) with Some _ => false | None => true end.

Definition writes_locally (w : World) : bool :=
  match user w with
  | None => true
  | Some uid => remote_write_fails uid w
  end.

(** The function parked by a program whose first step is an [await]. *)
Definition first_park (p : Prog unit) : option task :=
  match p with
  | Vis e k => if is_async e then Some (Suspended e k) else None
  | _ => None
  end.

(** The lists that an existing user document yields. *)
Definition lists_of_doc (userData : fields) : value :=
  VObj [("watchlist", or_empty (field userData "watchlist"));
        ("watched", or_empty (field userData "watched"));
        ("favorites", or_empty (field userData "favorites"))].

(** *** Statements about the hook *)

(** The state after the mutation [m] is called on the ListState [st] in the
    world [w]. *)
Definition state_after (m : mutation) (st : ListState) (w : World) : value :=
  let w0 := with_data (state_value st) w in
  data (snd (run (call m (data w0) (user w0)) w0)).

(** After the add [m] of the id [x], the list that [m] writes holds [x]
    once and every other id as often as before. *)
Definition added_once (m : mutation) (x : ContentId) (st : ListState) (w : World) : Prop :=
  exists st', state_after m st w = state_value st'
    /\ forall y, count_id y (own_ids m st')
                 = if id_eqb y x then 1 else count_id y (own_ids m st).

(** The two lists that [m] does not write are the same in [st] and [st']. *)
Definition other_lists_kept (m : mutation) (st st' : ListState) : Prop :=
  match m with
  | AddToWatchlist _ | RemoveFromWatchlist _ =>
      watched st' = watched st /\ favorites st' = favorites st
  | AddToWatched _ _ | RemoveFromWatched _ | UpdateWatchedRating _ _ =>
      watchlist st' = watchlist st /\ favorites st' = favorites st
  | AddToFavorites _ | RemoveFromFavorites _ =>
      watchlist st' = watchlist st /\ watched st' = watched st
  end.

(** *** Worlds and lists for the examples *)

(** A guest with nothing stored; Firestore reachable and empty. *)
Definition guest_world : World :=
  mkWorld empty_lists false None true [] [] [] true true [] true []
          "2024-05-01T09:30:00.000Z".

(** The same guest when [localStorage.setItem] throws. *)
Definition quota_world : World :=
  mkWorld empty_lists false None true [] [] [] true false [] true []
          "2024-05-01T09:30:00.000Z".

(** User "A" signed in, Firestore unreachable. *)
Definition offline_world : World :=
  mkWorld empty_lists false (Some "A") true [] [] [] true true [] false []
          "2024-05-01T09:30:00.000Z".

(** The same user when [localStorage.setItem] throws as well. *)
Definition offline_quota_world : World :=
  mkWorld empty_lists false (Some "A") true [] [] [] true false [] false []
          "2024-05-01T09:30:00.000Z".

Definition seven : WatchedEntry := mkEntry (IdStr "7") 7 "2024-04-30".

Definition some_lists : ListState :=
  mkListState [IdNum 550; IdStr "42"] [seven] [IdNum 550].

(** A user document with one movie in the watchlist. *)
Definition doc_of_A : fields :=
  [("watchlist", VArr [VNum 550]); ("watched", VArr []); ("favorites", VArr [])].

Definition lists_of_A : ListState := mkListState [IdNum 550] [] [].

Definition guest_lists : ListState := mkListState [] [] [IdStr "42"].

Definition noon : string := "2024-05-01T12:00:00.000Z".

(** Sign-in of "A" and a sign-out while the load of "A" is in flight; the
    guest's lists are in [localStorage]. *)
Definition sign_in_then_out : System :=
  exec (mount [(storage_key, print (state_value guest_lists))] [("A", doc_of_A)] true noon)
       [AuthChanged (Some "A"); AuthChanged None].

(** A guest whose stored text has the watchlist alone. *)
Definition partial_guest : System :=
  exec (mount [(storage_key, q "{'watchlist':[1]}")] [] true noon)
       [AuthChanged None].

(** "A" signs in and loads, signs out, the connection drops, "B" signs in
    and the fetch of "B" fails.  Nothing was ever written to
    [localStorage]. *)
Definition b_after_a : System :=
  exec (mount [] [("A", doc_of_A)] true noon)
       [AuthChanged (Some "A"); Completes 0; AuthChanged None; Network false;
        AuthChanged (Some "B"); Completes 0].

(** "A" signs in without a document.  The load has asked for the document
    and waits to create it when [ensureUserDoc] of the auth provider creates
    it; the user puts movie 550 on the watchlist and [updateDoc] stores it;
    then the [setDoc] of the load arrives. *)
Definition ensure_race : System :=
  exec (mount [] [] true noon)
       [AuthChanged (Some "A"); Completes 0; RemoteWrite "A" empty_fields;
        Call (AddToWatchlist (IdNum 550)); Completes 1; Completes 0].

(** The same events without the last one: the [setDoc] is still pending. *)
Definition before_ensure_arrives : System :=
  exec (mount [] [] true noon)
       [AuthChanged (Some "A"); Completes 0; RemoteWrite "A" empty_fields;
        Call (AddToWatchlist (IdNum 550)); Completes 1].

(* ================================================================== *)
(** ** The queries of the hook and the components that call it *)

(** [String(id)]: a string id is itself, a number id its decimal digits. *)
Definition id_text (id : ContentId) : string :=
  match id with
  | IdStr s => s
  | IdNum n => print_Z n
  end.

(** [s.includes(needle)] on strings: [needle] occurs somewhere in [s]. *)
Fixpoint includes_text (needle s : string) : bool :=
  String.prefix needle s
  || match s with
     | String _ rest => includes_text needle rest
     | EmptyString => false
     end.

(** [v.includes(id)]: arrays compare each element with the id, strings
    search for [String(id)], nothing else has the method. *)
Definition includes (v : value) (id : ContentId) : Res bool :=
  match v with
  | VArr items => Ok (existsb (fun item => strict_eq item (id_value id)) items)
  | VStr s => Ok (includes_text (id_text id) s)
  | _ => Throw TypeError
  end.

(** [items.some(cb)] stops at the first element for which [cb] holds. *)
Fixpoint someM (cb : value -> Res bool) (items : list value) : Res bool :=
  match items with
  | [] => Ok false
  | x :: rest => (found <-- cb x ;; if found then Ok true else someM cb rest)%res
  end.

(** [(item) => item.id === id] *)
Definition id_matches (id : ContentId) (item : value) : Res bool :=
  (x <-- get item "id" ;; Ok (strict_eq x (id_value id)))%res.

(** [isInWatchlist] *)
Definition isInWatchlist (data : value) (id : ContentId) : Res bool :=
  (v <-- get data "watchlist" ;; includes v id)%res.

(** [isInWatched] *)
Definition isInWatched (data : value) (id : ContentId) : Res bool :=
  (v <-- get data "watched" ;; items <-- as_array v ;; someM (id_matches id) items)%res.

(** [isFavorite] *)
Definition isFavorite (data : value) (id : ContentId) : Res bool :=
  (v <-- get data "favorites" ;; includes v id)%res.

(** The lists that the hook returns to its caller:
    [watchlist: data.watchlist, watched: data.watched,
    favorites: data.favorites]. *)
Definition returned_lists (data : value) : Res (value * value * value) :=
  (a <-- get data "watchlist" ;;
   b <-- get data "watched" ;;
   c <-- get data "favorites" ;;
   Ok (a, b, c))%res.

(** *** MovieCard *)

(** The three flags a card computes while it renders:
    [fav], [inList], [watched]. *)
Record CardFlags : Type := mkFlags {
  fav : bool;
  inList : bool;
  watchedFlag : bool
}.

Definition card_flags (data : value) (id : ContentId) : Res CardFlags :=
  (f <-- isFavorite data id ;;
   l <-- isInWatchlist data id ;;
   s <-- isInWatched data id ;;
   Ok (mkFlags f l s))%res.

Inductive button : Type :=
| FavoriteButton
| WatchlistButton
| WatchedButton.

Definition pressed (b : button) (flags : CardFlags) : bool :=
  match b with
  | FavoriteButton => fav flags
  | WatchlistButton => inList flags
  | WatchedButton => watchedFlag flags
  end.

(** The [onClick] of a button of the card, for the flags of its render:
    [fav ? removeFromFavorites(movie.id) : addToFavorites(movie.id)] and
    likewise for the two others; [addToWatched] is called without a
    rating. *)
Definition onClick (b : button) (flags : CardFlags) (id : ContentId) : mutation :=
  match b with
  | FavoriteButton =>
      if fav flags then RemoveFromFavorites id else AddToFavorites id
  | WatchlistButton =>
      if inList flags then RemoveFromWatchlist id else AddToWatchlist id
  | WatchedButton =>
      if watchedFlag flags then RemoveFromWatched id else AddToWatched id None
  end.

(** *** Reading the lists of a ListState *)

(** [id] is among [ids]. *)
Definition member (id : ContentId) (ids : list ContentId) : bool :=
  existsb (fun y => id_eqb y id) ids.

(** The flags of a card on a ListState. *)
Definition flags_of (st : ListState) (id : ContentId) : CardFlags :=
  mkFlags (member id (favorites st))
          (member id (watchlist st))
          (member id (map entry_id (watched st))).

(** The id a mutation is called with. *)
Definition target (m : mutation) : ContentId :=
  match m with
  | AddToWatchlist id | RemoveFromWatchlist id
  | AddToWatched id _ | RemoveFromWatched id | UpdateWatchedRating id _
  | AddToFavorites id | RemoveFromFavorites id => id
  end.

(** The query that belongs to the list a mutation writes. *)
Definition own_query (m : mutation) (data : value) (id : ContentId) : Res bool :=
  match m with
  | AddToWatchlist _ | RemoveFromWatchlist _ => isInWatchlist data id
  | AddToWatched _ _ | RemoveFromWatched _ | UpdateWatchedRating _ _ =>
      isInWatched data id
  | AddToFavorites _ | RemoveFromFavorites _ => isFavorite data id
  end.

(** No list holds an id twice. *)
Definition no_duplicates (st : ListState) : Prop :=
  NoDup (watchlist st) /\ NoDup (map entry_id (watched st)) /\ NoDup (favorites st).

(** A program without [await]. *)
Inductive synchronous {A : Type} : Prog A -> Prop :=
| sync_ret a : synchronous (Ret a)
| sync_raise e : synchronous (Raise e)
| sync_vis {B} (e : eff B) k :
    is_async e = false -> (forall r, synchronous (k r)) -> synchronous (Vis e k).

(** *** Loads and mutations between events *)

(** The requests that a load awaits: [getDoc] and [setDoc]. *)
Definition is_load_request {B} (e : eff B) : bool :=
  match e with
  | GetDoc _ | SetDocMerge _ _ => true
  | _ => false
  end.

Definition is_set_loading {B} (e : eff B) : bool :=
  match e with
  | SetLoading _ => true
  | _ => false
  end.








(* ================================================================== *)
(** ** The toast store ([hooks/use-toast.js]) *)

(** Maximum number of toasts shown at once. *)
Definition TOAST_LIMIT : nat := 3.

(** [Number.MAX_SAFE_INTEGER] *)
Definition MAX_SAFE_INTEGER : N := 9007199254740991.

(** A toast in the store: [{...props, id, open, onOpenChange}].  [P] is the
    type of the props a caller passes; [id] and [open] come after the
    spread, so props cannot override them.  [onOpenChange] is the function
    that dismisses the toast [id] when it is told [false]; it is determined
    by [id] and not stored here. *)
Record Shown (P : Type) : Type := mkShown {
  toast_id : string;
  toast_open : bool;
  toast_props : P
}.
Arguments mkShown {P} _ _ _.
Arguments toast_id {P} _.
Arguments toast_open {P} _.
Arguments toast_props {P} _.

(** The argument of [update]: what the spread [{...t, ...props}] does to
    [open] (when the props name it) and to the other props of the toast. *)
Record Patch (P : Type) : Type := mkPatch {
  patch_open : option bool;
  patch_props : P -> P
}.
Arguments mkPatch {P} _ _.
Arguments patch_open {P} _.
Arguments patch_props {P} _.

Inductive action (P : Type) : Type :=
| ADD_TOAST (toast : Shown P)
| UPDATE_TOAST (id : string) (props : Patch P)
| DISMISS_TOAST (toastId : option string)     (* None: [undefined] *)
| REMOVE_TOAST (toastId : option string)
| OTHER_ACTION.                               (* any other [type] *)
Arguments ADD_TOAST {P} _.
Arguments UPDATE_TOAST {P} _ _.
Arguments DISMISS_TOAST {P} _.
Arguments REMOVE_TOAST {P} _.
Arguments OTHER_ACTION {P}.

(** The module state: the id counter, [memoryState.toasts], and the keys of
    [toastTimeouts], each with its pending timer, oldest first.  The
    listeners only receive [memoryState] and are not part of the store. *)
Record ToastStore (P : Type) : Type := mkToastStore {
  count : N;
  memoryState : list (Shown P);
  toastTimeouts : list string
}.
Arguments mkToastStore {P} _ _ _.
Arguments count {P} _.
Arguments memoryState {P} _.
Arguments toastTimeouts {P} _.

Definition has_timeout (toastId : string) (timeouts : list string) : bool :=
  existsb (String.eqb toastId) timeouts.

(** [addToRemoveQueue]: one timer per toast id. *)
Definition addToRemoveQueue (toastId : string) (timeouts : list string) : list string :=
  if has_timeout toastId timeouts then timeouts else timeouts ++ [toastId].

(** [{ ...t, open: false }] *)
Definition closed {P} (t : Shown P) : Shown P :=
  mkShown (toast_id t) false (toast_props t).

(** [{ ...t, ...action.toast }] for an [action.toast] with the id of [t]. *)
Definition patched {P} (props : Patch P) (t : Shown P) : Shown P :=
  mkShown (toast_id t)
          (match patch_open props with Some o => o | None => toast_open t end)
          (patch_props props (toast_props t)).

(** [reducer], with the timers that its DISMISS_TOAST case starts. *)
Definition reducer {P} (timeouts : list string) (state : list (Shown P))
           (a : action P) : list (Shown P) * list string :=
  match a with
  | ADD_TOAST toast => (firstn TOAST_LIMIT (toast :: state), timeouts)
  | UPDATE_TOAST id props =>
      (map (fun t => if String.eqb (toast_id t) id then patched props t else t) state,
       timeouts)
  | DISMISS_TOAST toastId =>
      let queued :=
        match toastId with
        | Some id =>
            if negb (String.eqb id "") then addToRemoveQueue id timeouts
            else fold_left (fun tm t => addToRemoveQueue (toast_id t) tm) state timeouts
        | None =>
            fold_left (fun tm t => addToRemoveQueue (toast_id t) tm) state timeouts
        end in
      (map (fun t =>
              match toastId with
              | Some id => if String.eqb (toast_id t) id then closed t else t
              | None => closed t
              end) state,
       queued)
  | REMOVE_TOAST None => ([], timeouts)
  | REMOVE_TOAST (Some id) =>
      (filter (fun t => negb (String.eqb (toast_id t) id)) state, timeouts)
  | OTHER_ACTION => (state, timeouts)
  end.

(** [dispatch] *)
Definition dispatch {P} (a : action P) (s : ToastStore P) : ToastStore P :=
  let (state, timeouts) := reducer (toastTimeouts s) (memoryState s) a in
  mkToastStore (count s) state timeouts.

(** [genId]: the next counter value and its text. *)
Definition genId {P} (s : ToastStore P) : string * ToastStore P :=
  let c := ((count s + 1) mod MAX_SAFE_INTEGER)%N in
  (print_N c, mkToastStore c (memoryState s) (toastTimeouts s)).

(** [toast(props)] *)
Definition toast {P} (props : P) (s : ToastStore P) : ToastStore P :=
  let (id, s1) := genId s in
  dispatch (ADD_TOAST (mkShown id true props)) s1.

(** What happens to the store. *)
Inductive toast_event (P : Type) : Type :=
| CallToast (props : P)                          (* toast(props) *)
| CallUpdate (id : string) (props : Patch P)     (* the update of toast id *)
| CallDismiss (toastId : option string)          (* dismiss(toastId) *)
| TimerFires (toastId : string).                 (* a pending timer of the queue *)
Arguments CallToast {P} _.
Arguments CallUpdate {P} _ _.
Arguments CallDismiss {P} _.
Arguments TimerFires {P} _.

(** The callback of the timer started by [addToRemoveQueue]:
    [toastTimeouts.delete(toastId)], then REMOVE_TOAST. *)
Definition timer_callback {P} (toastId : string) (s : ToastStore P) : ToastStore P :=
  dispatch (REMOVE_TOAST (Some toastId))
    (mkToastStore (count s) (memoryState s)
       (filter (fun k => negb (String.eqb k toastId)) (toastTimeouts s))).

Definition toast_step {P} (s : ToastStore P) (ev : toast_event P) : ToastStore P :=
  match ev with
  | CallToast props => toast props s
  | CallUpdate id props => dispatch (UPDATE_TOAST id props) s
  | CallDismiss toastId => dispatch (DISMISS_TOAST toastId) s
  | TimerFires toastId =>
      if has_timeout toastId (toastTimeouts s) then timer_callback toastId s else s
  end.

Definition toast_run {P} (s : ToastStore P) (evs : list (toast_event P)) : ToastStore P :=
  fold_left toast_step evs s.

(** The store when the module is loaded. *)
Definition empty_store {P} : ToastStore P := mkToastStore 0%N [] [].

(** The number of [toast(...)] calls among the events. *)
Definition toast_calls {P} (evs : list (toast_event P)) : nat :=
  List.length (filter (fun ev => match ev with CallToast _ => true | _ => false end) evs).

(** Every shown toast carries the text of a counter value already used. *)
Definition ids_issued {P} (s : ToastStore P) : Prop :=
  Forall (fun t => exists k, toast_id t = print_N k /\ (1 <= k <= count s)%N)
         (memoryState s).

(* ================================================================== *)
(** * [lib/utils.js]: [truncateText], called by [MovieCard] *)

(** A JavaScript string as the list of its UTF-16 code units: [length],
    [substring] and [trim] count and cut code units. *)
Definition js_string : Type := list N.

(** The code units that [trim] removes: WhiteSpace and LineTerminator of
    ECMAScript (tab, LF, VT, FF, CR, space, NBSP, U+1680, U+2000..U+200A,
    U+2028, U+2029, U+202F, U+205F, U+3000, U+FEFF). *)
Definition is_white_space (c : N) : bool :=
  existsb (N.eqb c)
    [9; 10; 11; 12; 13; 32; 160; 5760; 8232; 8233; 8239; 8287; 12288; 65279]%N
  || ((8192 <=? c) && (c <=? 8202))%N.

Definition white (c : N) : Prop := is_white_space c = true.

Fixpoint trimStart (s : js_string) : js_string :=
  match s with
  | [] => []
  | c :: rest => if is_white_space c then trimStart rest else s
  end.

Definition trimEnd (s : js_string) : js_string := rev (trimStart (rev s)).

(** [s.trim()] *)
Definition trim (s : js_string) : js_string := trimEnd (trimStart s).

(** ["..."] *)
Definition ellipsis : js_string := [46; 46; 46]%N.

(** [truncateText(text, maxLength)] for a string [text] and a length
    [maxLength] that is a natural number ([MovieCard] passes
    [movie.overview || ""] and 100). [!text] holds of the empty string only,
    and [text.substring(0, maxLength)] is the first [maxLength] code units. *)
Definition truncateText (text : js_string) (maxLength : nat) : js_string :=
  if Nat.eqb (List.length text) 0 then []
  else if Nat.leb (List.length text) maxLength then text
  else trim (firstn maxLength text) ++ ellipsis.

(* ================================================================== *)
(** * The list pages: [app/watchlist/page.js] and [app/favorites/page.js] *)

(** Both pages read one list of the hook ([watchlist] or [favorites]) and
    load the details of its ids in an effect on [[user, list]].  Each run of
    the effect has its own [ignore] flag, set by its cleanup. *)
Module ListPage.

(** One run of the effect: the ids it requested, its [ignore] flag, and
    whether its [load()] stands at [await Promise.all(...)]. *)
Record Run : Type := mkRun {
  ids : list value;
  ignore : bool;
  awaiting : bool
}.

(** The component: [items], [loading], and the runs of the effect, the
    newest first. *)
Record Page : Type := mkPage {
  items : list value;
  loading : bool;
  runs : list Run
}.

(** [useState([])], [useState(true)], before the first effect. *)
Definition mounted : Page := mkPage [] true [].

Inductive event : Type :=
| Effect (user : option string) (list : value)
    (* first render, or [user] or the list changed: cleanup, then the effect *)
| Settles (k : nat) (fetch : nat -> value -> Res value)
    (* the requests of run [k] are over: request [i], for id [id], gave [fetch i id] *)
| Unmount.

(** [return () => { ignore = true }] of the newest run. *)
Definition cleanup (rs : list Run) : list Run :=
  match rs with
  | [] => []
  | r :: older => mkRun (ids r) true (awaiting r) :: older
  end.

(** Runs are numbered from the oldest, starting at 0. *)
Fixpoint find_run (k : nat) (rs : list Run) : option Run :=
  match rs with
  | [] => None
  | r :: older => if Nat.eqb k (List.length older) then Some r else find_run k older
  end.

Fixpoint settle (k : nat) (rs : list Run) : list Run :=
  match rs with
  | [] => []
  | r :: older =>
      if Nat.eqb k (List.length older) then mkRun (ids r) (ignore r) false :: older
      else r :: settle k older
  end.

(** [Promise.all]: all results in the order of the requests, or a
    rejection if one request rejects. *)
Fixpoint Promise_all (rs : list (Res value)) : Res (list value) :=
  match rs with
  | [] => Ok []
  | Ok v :: rest =>
      match Promise_all rest with
      | Ok vs => Ok (v :: vs)
      | Throw e => Throw e
      end
  | Throw e :: _ => Throw e
  end.

(** [list.map(async (id) => await tmdbService.getMovieDetails(id))] *)
Definition responses (fetch : nat -> value -> Res value) (l : list value)
  : list (Res value) :=
  map (fun r : nat * value => fetch (fst r) (snd r)) (combine (seq 0 (List.length l)) l).

(** What a run that is not ignored writes when its requests are over:
    [setItems(results.filter(Boolean))], or [setItems([])] in [catch]. *)
Definition loaded (fetch : nat -> value -> Res value) (l : list value) : list value :=
  match Promise_all (responses fetch l) with
  | Ok results => filter truthy results
  | Throw _ => []
  end.

Definition step (s : Page) (ev : event) : Page :=
  match ev with
  | Effect user list =>
      let rs := cleanup (runs s) in
      match user with
      | None =>                                  (* if (!user) return; *)
          mkPage (items s) (loading s) (mkRun [] false false :: rs)
      | Some _ =>
          (* setLoading(true); try { ... (list || []).map(...) *)
          match as_array (or_empty list) with
          | Ok l => mkPage (items s) true (mkRun l false true :: rs)
          | Throw _ =>
              (* [.map] is not a function: catch and finally, [ignore] still false *)
              mkPage [] false (mkRun [] false false :: rs)
          end
      end
  | Settles k fetch =>
      match find_run k (runs s) with
      | Some r =>
          if awaiting r then
            if ignore r then mkPage (items s) (loading s) (settle k (runs s))
            else mkPage (loaded fetch (ids r)) false (settle k (runs s))
          else s
      | None => s
      end
  | Unmount => mkPage (items s) (loading s) (cleanup (runs s))
  end.

Definition exec (s : Page) (evs : list event) : Page := fold_left step evs s.

(** The responses that settled run [k], if it settled among [evs]. *)
Fixpoint first_settled (k : nat) (evs : list event) : option (nat -> value -> Res value) :=
  match evs with
  | [] => None
  | Settles k' fetch :: rest => if Nat.eqb k' k then Some fetch else first_settled k rest
  | _ :: rest => first_settled k rest
  end.

Definition is_settles (ev : event) : bool :=
  match ev with Settles _ _ => true | _ => false end.

Definition signed_out (ev : event) : bool :=
  match ev with Effect (Some _) _ => false | _ => true end.

(** Invariants of the runs. *)
Definition ignored (r : Run) : Prop := ignore r = true.

(** Only the newest run can be live. *)
Definition older_ignored (rs : list Run) : Prop :=
  match rs with
  | [] => True
  | _ :: older => Forall ignored older
  end.

(** No run can still write. *)
Definition none_live (rs : list Run) : Prop :=
  Forall (fun r => ignore r = true \/ awaiting r = false) rs.

End ListPage.

(* ================================================================== *)
(** * The movie page: [MovieDetailPage] *)

(** The page loads the details of the movie [id] in an effect on [[id]],
    with an [ignore] flag per run like the list pages. *)
Module DetailPage.

(** [movie], [loading], [err], and the runs of the effect, the newest
    first.  [err] is null or one of two messages. *)
Record Page : Type := mkPage {
  movie : value;
  loading : bool;
  err : option string;
  runs : list ListPage.Run
}.

(** [useState(null)], [useState(true)], [useState(null)]. *)
Definition mounted : Page := mkPage VNull true None [].

Inductive event : Type :=
| Effect (id : value)                 (* first render, or [id] changed *)
| Settles (k : nat) (data : Res value)  (* [getMovieDetails] of run [k] is over *)
| Unmount.

Definition step (s : Page) (ev : event) : Page :=
  match ev with
  | Effect id =>
      let rs := ListPage.cleanup (runs s) in
      if truthy id then
        (* setLoading(true); setErr(null); await tmdbService.getMovieDetails(id) *)
        mkPage (movie s) true None (ListPage.mkRun [id] false true :: rs)
      else                                 (* if (!id) return; *)
        mkPage (movie s) (loading s) (err s) (ListPage.mkRun [] false false :: rs)
  | Settles k data =>
      match ListPage.find_run k (runs s) with
      | Some r =>
          if ListPage.awaiting r then
            let rs := ListPage.settle k (runs s) in
            if ListPage.ignore r then mkPage (movie s) (loading s) (err s) rs
            else
              match data with
              | Ok d =>
                  if truthy d then mkPage d false (err s) rs
                  else mkPage (movie s) false (Some "Movie not found") rs
              | Throw _ =>
                  mkPage (movie s) false (Some "Failed to load movie details") rs
              end
          else s
      | None => s
      end
  | Unmount => mkPage (movie s) (loading s) (err s) (ListPage.cleanup (runs s))
  end.

Definition exec (s : Page) (evs : list event) : Page := fold_left step evs s.

(** What the component returns: the placeholders, the error screen with
    its message, or the movie. *)
Inductive view : Type :=
| Skeleton
| NotFound (message : string)
| Detail (movie : value).

Definition render (s : Page) : view :=
  if loading s then Skeleton
  else
    match err s with
    | Some e => NotFound e                 (* the messages are not empty *)
    | None =>
        if truthy (movie s) then Detail (movie s)
        else NotFound "The requested movie could not be found."
    end.

(** The answer that settled run [k], if it settled among [evs]. *)
Fixpoint first_settled (k : nat) (evs : list event) : option (Res value) :=
  match evs with
  | [] => None
  | Settles k' data :: rest => if Nat.eqb k' k then Some data else first_settled k rest
  | _ :: rest => first_settled k rest
  end.

Definition is_settles (ev : event) : bool :=
  match ev with Settles _ _ => true | _ => false end.

(** What the newest run writes when it settles with [data]. *)
Definition written (data : Res value) (before after : Page) : Prop :=
  loading after = false
  /\ match data with
     | Ok d =>
         if truthy d then movie after = d /\ err after = err before
         else movie after = movie before /\ err after = Some "Movie not found"%string
     | Throw _ =>
         movie after = movie before
         /\ err after = Some "Failed to load movie details"%string
     end.

Definition same_state (before after : Page) : Prop :=
  movie after = movie before /\ loading after = loading before
  /\ err after = err before.

End DetailPage.

(* ================================================================== *)
(** * [lib/utils.js]: [formatRuntime], called by the movie page *)

(** [formatRuntime(minutes)] for a runtime that is an integer or missing
    ([None]: null or undefined).  [Math.floor(minutes / 60)] is [Z.div] and
    [minutes % 60], which has the sign of [minutes], is [Z.rem]. *)
Definition formatRuntime (minutes : option Z) : string :=
  match minutes with
  | None => "Unknown"
  | Some m =>
      if Z.eqb m 0 then "Unknown"
      else
        let hours := (m / 60)%Z in
        let remainingMinutes := Z.rem m 60 in
        if Z.eqb hours 0 then print_Z remainingMinutes +++ "m"
        else if Z.eqb remainingMinutes 0 then print_Z hours +++ "h"
        else print_Z hours +++ "h " +++ print_Z remainingMinutes +++ "m"
  end.

(** The runtimes shown as [Unknown]. *)
Definition unknown (minutes : option Z) : bool :=
  match minutes with
  | None => true
  | Some m => Z.eqb m 0
  end.

(* ================================================================== *)
(** * Properties *)

(** Expose the fields of an updated world. *)
Ltac world_fields :=
  unfold with_data, with_loading, with_auth, with_toast, with_console,
    with_localStorage, with_users, with_online, with_request in *;
  cbn [data loading user initialized toasts console localStorage
       storage_readable storage_writable users online requests clock] in *.


(** ** Strings *)

Lemma append_assoc (a b c : string) : (a +++ b) +++ c = a +++ b +++ c.
Proof.
  induction a as [|x a IH]; simpl; [reflexivity | now rewrite IH].
Qed.

Lemma append_nil_r (a : string) : a +++ "" = a.
Proof.
  induction a as [|x a IH]; simpl; [reflexivity | now rewrite IH].
Qed.

Lemma length_append (a b : string) :
  String.length (a +++ b) = String.length a + String.length b.
Proof.
  induction a as [|x a IH]; simpl; [reflexivity | now rewrite IH].
Qed.

(** An induction principle that reaches the values inside arrays and
    objects. *)
Lemma value_nested_ind (P : value -> Prop) :
  P VUndefined -> P VNull ->
  (forall b, P (VBool b)) -> (forall n, P (VNum n)) -> (forall s, P (VStr s)) ->
  (forall items, Forall P items -> P (VArr items)) ->
  (forall props, Forall (fun kv => P (snd kv)) props -> P (VObj props)) ->
  forall v, P v.
Proof.
  intros Hundefined Hnull Hbool Hnum Hstr Harr Hobj.
  fix IH 1. intros [| |b|n|s|items|props].
  - exact Hundefined.
  - exact Hnull.
  - apply Hbool.
  - apply Hnum.
  - apply Hstr.
  - apply Harr. induction items as [|x items IHitems]; constructor;
      [apply IH | exact IHitems].
  - apply Hobj. induction props as [|[k x] props IHprops]; constructor;
      [apply IH | exact IHprops].
Qed.

(** ** Numbers in JSON text *)

Lemma digit_not_fraction (c : ascii) (s : string) :
  delimited (String c s) = true -> is_digit c = false /\ starts_fraction (String c s) = false.
Proof.
  simpl. intros H.
  destruct (Ascii.eqb_spec c ",") as [->|]; [now split|].
  destruct (Ascii.eqb_spec c "]") as [->|]; [now split|].
  destruct (Ascii.eqb_spec c "}") as [->|]; [now split|].
  discriminate.
Qed.

Lemma span_digits_app (ds rest : string) :
  all_digits ds = true -> delimited rest = true ->
  span_digits (ds +++ rest) = (ds, rest).
Proof.
  intros Hds Hrest. induction ds as [|c ds IH]; cbn [all_digits String.append span_digits] in *.
  - destruct rest as [|c s]; [reflexivity|].
    cbn [span_digits]. destruct (digit_not_fraction c s Hrest) as [-> _]. reflexivity.
  - apply andb_true_iff in Hds as [-> Hds]. now rewrite (IH Hds).
Qed.

Lemma all_digits_uint (d : Decimal.uint) :
  all_digits (NilEmpty.string_of_uint d) = true.
Proof.
  induction d; simpl; auto.
Qed.

Lemma to_uint_normal (n : N) : Decimal.unorm (N.to_uint n) = N.to_uint n.
Proof.
  rewrite <- (DecimalN.Unsigned.to_of (N.to_uint n)).
  now rewrite DecimalN.Unsigned.of_to.
Qed.

Lemma to_uint_not_nil (n : N) : N.to_uint n <> Decimal.Nil.
Proof.
  rewrite <- to_uint_normal. apply unorm_nonnil.
Qed.

Lemma to_uint_no_leading_zero (n : N) (u : Decimal.uint) :
  N.to_uint n = Decimal.D0 u -> u = Decimal.Nil.
Proof.
  intros H. pose proof (to_uint_normal n) as Hn. rewrite H in Hn.
  rewrite unorm_D0 in Hn. unfold Decimal.unorm in Hn.
  destruct (Decimal.nzhead u) eqn:Hz; try (exfalso; now apply (nzhead_nonzero u u)).
  - injection Hn as <-. reflexivity.
  - exfalso. apply (nzhead_nonzero u u). now rewrite Hz.
Qed.

Lemma print_N_digits (n : N) : all_digits (print_N n) = true.
Proof.
  unfold print_N, NilZero.string_of_uint.
  destruct (N.to_uint n); try apply (all_digits_uint (_ _)); reflexivity.
Qed.

Lemma print_N_leading (n : N) : leading_zero (print_N n) = false.
Proof.
  unfold print_N, NilZero.string_of_uint.
  destruct (N.to_uint n) as [|u|u|u|u|u|u|u|u|u|u] eqn:E; try reflexivity;
    try (simpl; destruct (NilEmpty.string_of_uint u); reflexivity).
  apply to_uint_no_leading_zero in E. subst u. reflexivity.
Qed.

Lemma parse_nat_print (n : N) (rest : string) :
  delimited rest = true ->
  parse_nat (print_N n +++ rest) = Some (n, rest).
Proof.
  intros Hrest. unfold parse_nat.
  rewrite (span_digits_app _ _ (print_N_digits n) Hrest).
  rewrite print_N_leading.
  assert (starts_fraction rest = false) as ->.
  { destruct rest as [|c s]; [reflexivity|]. now apply digit_not_fraction. }
  simpl. unfold print_N. rewrite NilZero.usu by apply to_uint_not_nil.
  simpl. now rewrite DecimalN.Unsigned.of_to.
Qed.

Lemma print_N_head (n : N) :
  exists c s, print_N n = String c s /\ is_digit c = true.
Proof.
  pose proof (print_N_digits n) as H.
  unfold print_N, NilZero.string_of_uint in *.
  destruct (N.to_uint n) eqn:E; simpl in *;
    try (apply andb_true_iff in H as [Hc _]); eauto.
Qed.

Lemma parse_number_print (n : Z) (rest : string) :
  delimited rest = true ->
  parse_number (print_Z n +++ rest) = Some (VNum n, rest).
Proof.
  intros Hrest. unfold parse_number, print_Z.
  destruct n as [|p|p].
  - simpl Z.to_N. destruct (print_N_head 0) as (c & s & E & Hc).
    assert (starts_with "-" (print_N 0 +++ rest) = None) as ->.
    { rewrite E. simpl. destruct (Ascii.eqb_spec c "-") as [->|]; [discriminate|reflexivity]. }
    now rewrite parse_nat_print.
  - simpl Z.to_N. destruct (print_N_head (Npos p)) as (c & s & E & Hc).
    assert (starts_with "-" (print_N (Npos p) +++ rest) = None) as ->.
    { rewrite E. simpl. destruct (Ascii.eqb_spec c "-") as [->|]; [discriminate|reflexivity]. }
    now rewrite parse_nat_print.
  - simpl. now rewrite parse_nat_print.
Qed.

(** ** Strings in JSON text *)

Lemma parse_chars_escape_char (c : ascii) (tail str r : string) :
  parse_chars tail = Some (str, r) ->
  parse_chars (escape_char c +++ tail) = Some (String c str, r).
Proof.
  intros H.
  destruct c as [[] [] [] [] [] [] [] []];
    match goal with
    | |- context [escape_char ?c] =>
        let e := eval vm_compute in (escape_char c) in change (escape_char c) with e
    end;
    cbn; rewrite H; reflexivity.
Qed.

Lemma parse_chars_escape (s rest : string) :
  parse_chars (escape s +++ String dquote rest) = Some (s, rest).
Proof.
  induction s as [|c s IH]; cbn [escape String.append].
  - cbn. reflexivity.
  - rewrite append_assoc. now apply parse_chars_escape_char.
Qed.

Lemma quote_unfold (s rest : string) :
  quote s +++ rest = String dquote (escape s +++ String dquote rest).
Proof.
  unfold quote. cbn [String.append]. now rewrite append_assoc.
Qed.

(** ** Values in JSON text *)

Lemma value_start_facts (c : ascii) :
  value_start c = true ->
  is_ws c = false /\ Ascii.eqb c "]" = false /\ Ascii.eqb c "}" = false.
Proof.
  destruct c as [[] [] [] [] [] [] [] []]; intros H;
    try discriminate H; repeat split; reflexivity.
Qed.

Lemma print_Z_head (n : Z) :
  exists c s, print_Z n = String c s /\ (c = "-"%char \/ is_digit c = true).
Proof.
  destruct n as [|p|p]; unfold print_Z.
  - destruct (print_N_head (Z.to_N 0)) as (c & s & E & H); eauto.
  - destruct (print_N_head (Z.to_N (Zpos p))) as (c & s & E & H); eauto.
  - eauto.
Qed.

Lemma print_head (v : value) :
  exists c s, print v = String c s /\ value_start c = true.
Proof.
  destruct v as [| |[]|n|s|l|ps]; cbn [print]; try (do 2 eexists; split; reflexivity).
  destruct (print_Z_head n) as (c & s & E & [->|H]); rewrite E; do 2 eexists;
    (split; [reflexivity|]); [reflexivity|].
  unfold value_start. rewrite H. now rewrite !orb_true_r.
Qed.

Lemma print_length (v : value) : 1 <= String.length (print v).
Proof.
  destruct (print_head v) as (c & s & E & _). rewrite E. simpl. lia.
Qed.

Lemma skip_ws_print (v : value) (rest : string) :
  skip_ws (print v +++ rest) = print v +++ rest.
Proof.
  destruct (print_head v) as (c & s & E & H). rewrite E.
  cbn [String.append skip_ws].
  now destruct (value_start_facts c H) as (-> & _).
Qed.

Lemma starts_with_print (c0 : ascii) (v : value) (rest : string) :
  c0 = "]"%char \/ c0 = "}"%char ->
  starts_with c0 (print v +++ rest) = None.
Proof.
  destruct (print_head v) as (c & s & E & H). rewrite E.
  cbn [String.append starts_with].
  destruct (value_start_facts c H) as (_ & H1 & H2).
  now intros [->| ->]; [rewrite H1 | rewrite H2].
Qed.

Lemma parse_value_number (f : nat) (c : ascii) (s : string) :
  c = "-"%char \/ is_digit c = true ->
  parse_value (S f) (String c s) = parse_number (String c s).
Proof.
  intros [->|H]; [reflexivity|].
  destruct c as [[] [] [] [] [] [] [] []]; try discriminate H; reflexivity.
Qed.

Lemma parse_value_string (f : nat) (text : string) :
  parse_value (S f) (String dquote text)
  = option_map (fun '(str, r) => (VStr str, r)) (parse_chars text).
Proof. reflexivity. Qed.

Lemma parse_value_array (f : nat) (text : string) :
  parse_value (S f) (String "[" text)
  = match starts_with "]" (skip_ws text) with
    | Some r => Some (VArr [], r)
    | None => option_map (fun '(l, r) => (VArr l, r)) (parse_elements f text)
    end.
Proof. reflexivity. Qed.

Lemma parse_value_object (f : nat) (text : string) :
  parse_value (S f) (String "{" text)
  = match starts_with "}" (skip_ws text) with
    | Some r => Some (VObj [], r)
    | None => option_map (fun '(m, r) => (VObj (object_of_members m), r))
                         (parse_members f text)
    end.
Proof. reflexivity. Qed.

Lemma parse_elements_step (f : nat) (text : string) :
  parse_elements (S f) text
  = match parse_value f text with
    | None => None
    | Some (v, r) =>
        match skip_ws r with
        | String c r' =>
            if Ascii.eqb c "," then
              option_map (fun '(l, r2) => (v :: l, r2)) (parse_elements f r')
            else if Ascii.eqb c "]" then Some ([v], r')
            else None
        | EmptyString => None
        end
    end.
Proof. reflexivity. Qed.

Lemma parse_members_step (f : nat) (text : string) :
  parse_members (S f) (String dquote text)
  = match parse_chars text with
    | None => None
    | Some (k, r1) =>
        match skip_ws r1 with
        | String c1 r2 =>
            if Ascii.eqb c1 ":" then
              match parse_value f r2 with
              | None => None
              | Some (v, r3) =>
                  match skip_ws r3 with
                  | String c r4 =>
                      if Ascii.eqb c "," then
                        option_map (fun '(m, r5) => ((k, v) :: m, r5))
                                   (parse_members f r4)
                      else if Ascii.eqb c "}" then Some ([(k, v)], r4)
                      else None
                  | EmptyString => None
                  end
              end
            else None
        | EmptyString => None
        end
    end.
Proof. reflexivity. Qed.

Lemma parse_elements_comma (f : nat) (text tail : string) (x : value) :
  parse_value f text = Some (x, String "," tail) ->
  parse_elements (S f) text
  = option_map (fun '(l, r2) => (x :: l, r2)) (parse_elements f tail).
Proof.
  intros H. rewrite parse_elements_step, H. reflexivity.
Qed.

Lemma parse_elements_close (f : nat) (text tail : string) (x : value) :
  parse_value f text = Some (x, String "]" tail) ->
  parse_elements (S f) text = Some ([x], tail).
Proof.
  intros H. rewrite parse_elements_step, H. reflexivity.
Qed.

Lemma parse_members_comma (f : nat) (text r2 r4 k : string) (v : value) :
  parse_chars text = Some (k, String ":" r2) ->
  parse_value f r2 = Some (v, String "," r4) ->
  parse_members (S f) (String dquote text)
  = option_map (fun '(m, r5) => ((k, v) :: m, r5)) (parse_members f r4).
Proof.
  intros H1 H2. rewrite parse_members_step, H1. cbn [skip_ws].
  change (is_ws ":") with false. change (Ascii.eqb ":" ":") with true. cbv iota.
  rewrite H2. reflexivity.
Qed.

Lemma parse_members_close (f : nat) (text r2 r4 k : string) (v : value) :
  parse_chars text = Some (k, String ":" r2) ->
  parse_value f r2 = Some (v, String "}" r4) ->
  parse_members (S f) (String dquote text) = Some ([(k, v)], r4).
Proof.
  intros H1 H2. rewrite parse_members_step, H1. cbn [skip_ws].
  change (is_ws ":") with false. change (Ascii.eqb ":" ":") with true. cbv iota.
  rewrite H2. reflexivity.
Qed.

Lemma parse_elements_print (items : list value) :
  items <> [] ->
  Forall parses_back items -> Forall storable items ->
  forall fuel rest,
    S (String.length (String.concat "," (map print items))) <= fuel ->
    parse_elements fuel (String.concat "," (map print items) +++ "]" +++ rest)
    = Some (items, rest).
Proof.
  induction items as [|x items IH]; [congruence|].
  intros _ Hback Hst fuel rest Hfuel.
  inversion Hback as [|? ? Hx Hitems]; subst.
  inversion Hst as [|? ? Sx Sitems]; subst.
  destruct fuel as [|f]; [lia|].
  destruct items as [|y items].
  - cbn [map String.concat] in *.
    apply parse_elements_close.
    apply (Hx Sx f (String "]" rest)); [lia | reflexivity].
  - change (String.concat "," (map print (x :: y :: items)))
      with (print x +++ "," +++ String.concat "," (map print (y :: items))) in *.
    set (tail := String.concat "," (map print (y :: items))) in *.
    rewrite !length_append in Hfuel. cbn [String.length] in Hfuel.
    pose proof (print_length x).
    rewrite !append_assoc.
    rewrite (parse_elements_comma f _ (tail +++ "]" +++ rest) x).
    + unfold tail. rewrite IH; auto; try congruence. lia.
    + apply (Hx Sx f (String "," (tail +++ "]" +++ rest))); [lia | reflexivity].
Qed.

Lemma members_text_storable (props : list (string * value)) :
  Forall (fun kv => storable (snd kv)) props ->
  members_text print props = map member_text props.
Proof.
  induction 1 as [|[k v] props Hv _ IH]; [reflexivity|].
  cbn [members_text map]. rewrite IH.
  destruct v; try reflexivity. inversion Hv.
Qed.

Lemma parse_members_print (props : list (string * value)) :
  props <> [] ->
  Forall (fun kv => parses_back (snd kv)) props ->
  Forall (fun kv => storable (snd kv)) props ->
  forall fuel rest,
    S (String.length (String.concat "," (map member_text props))) <= fuel ->
    parse_members fuel (String.concat "," (map member_text props) +++ "}" +++ rest)
    = Some (props, rest).
Proof.
  induction props as [|[k x] props IH]; [congruence|].
  intros _ Hback Hst fuel rest Hfuel.
  inversion Hback as [|? ? Hx Hprops]; subst.
  inversion Hst as [|? ? Sx Sprops]; subst.
  cbn [snd] in Hx, Sx.
  destruct fuel as [|f]; [lia|].
  destruct props as [|y props].
  - cbn [map String.concat] in *. unfold member_text in *. cbn [fst snd] in *.
    rewrite !length_append in Hfuel.
    rewrite !append_assoc, quote_unfold.
    apply (parse_members_close f _ (print x +++ "}" +++ rest) rest k x).
    + apply parse_chars_escape.
    + apply (Hx Sx f (String "}" rest)); [lia | reflexivity].
  - change (String.concat "," (map member_text ((k, x) :: y :: props)))
      with (member_text (k, x) +++ "," +++ String.concat "," (map member_text (y :: props))) in *.
    set (tail := String.concat "," (map member_text (y :: props))) in *.
    unfold member_text at 1 in Hfuel. unfold member_text at 1. cbn [fst snd] in *.
    rewrite !length_append in Hfuel. cbn [String.length] in Hfuel.
    pose proof (print_length x).
    rewrite !append_assoc, quote_unfold.
    rewrite (parse_members_comma f _ (print x +++ "," +++ tail +++ "}" +++ rest)
                                 (tail +++ "}" +++ rest) k x).
    + unfold tail. rewrite IH; auto; try congruence. lia.
    + apply parse_chars_escape.
    + apply (Hx Sx f (String "," (tail +++ "}" +++ rest))); [lia | reflexivity].
Qed.

Lemma lookup_set_prop (k k' : string) (v : value) (props : list (string * value)) :
  lookup k (set_prop k' v props) = if String.eqb k k' then Some v else lookup k props.
Proof.
  induction props as [|[k0 v0] props IH]; cbn [set_prop lookup].
  - reflexivity.
  - destruct (String.eqb_spec k' k0) as [->|Hne]; cbn [lookup].
    + destruct (String.eqb k k0); reflexivity.
    + rewrite IH. destruct (String.eqb_spec k k0) as [->|]; [|reflexivity].
      destruct (String.eqb_spec k0 k'); congruence.
Qed.

Lemma set_prop_fresh (k : string) (v : value) (props : list (string * value)) :
  ~ In k (map fst props) -> set_prop k v props = props ++ [(k, v)].
Proof.
  induction props as [|[k' v'] props IH]; intros Hk; [reflexivity|].
  cbn [set_prop app]. cbn [map fst In] in Hk.
  destruct (String.eqb_spec k k') as [->|_]; [tauto|].
  rewrite IH by tauto. reflexivity.
Qed.

Lemma fold_set_prop_fresh (members acc : list (string * value)) :
  NoDup (map fst (acc ++ members)) ->
  fold_left (fun a kv => set_prop (fst kv) (snd kv) a) members acc = acc ++ members.
Proof.
  revert acc. induction members as [|[k v] members IH]; intros acc Hnd.
  - now rewrite List.app_nil_r.
  - cbn [fold_left fst snd].
    assert (acc ++ (k, v) :: members = (acc ++ [(k, v)]) ++ members) as E
        by now rewrite <- app_assoc.
    rewrite E in *. rewrite set_prop_fresh.
    + now apply IH.
    + rewrite !map_app in Hnd. apply NoDup_app_remove_r in Hnd.
      cbn [map fst] in Hnd. apply NoDup_remove_2 in Hnd.
      now rewrite List.app_nil_r in Hnd.
Qed.

Lemma object_of_members_nodup (props : list (string * value)) :
  NoDup (map fst props) -> object_of_members props = props.
Proof.
  intros H. unfold object_of_members. now rewrite fold_set_prop_fresh.
Qed.

Lemma parse_print (v : value) : parses_back v.
Proof.
  induction v as [| |b|n|s|items IH|props IH] using value_nested_ind;
    intros Hst fuel rest Hfuel Hrest.
  - inversion Hst.
  - destruct fuel as [|f]; [simpl in Hfuel; lia|]. reflexivity.
  - destruct fuel as [|f]; [destruct b; simpl in Hfuel; lia|]. now destruct b.
  - destruct fuel as [|f]; [pose proof (print_length (VNum n)); lia|].
    cbn [print]. destruct (print_Z_head n) as (c & s & E & H).
    rewrite <- (parse_number_print n rest Hrest). rewrite E.
    cbn [String.append]. now apply parse_value_number.
  - destruct fuel as [|f]; [pose proof (print_length (VStr s)); lia|].
    cbn [print]. rewrite quote_unfold, parse_value_string, parse_chars_escape.
    reflexivity.
  - destruct fuel as [|f]; [pose proof (print_length (VArr items)); lia|].
    inversion Hst as [| | | |? Hitems|]; subst.
    cbn [print] in *. cbn [String.append]. rewrite parse_value_array.
    destruct items as [|x items]; [reflexivity|].
    rewrite !append_assoc.
    assert (exists y, String.concat "," (map print (x :: items)) = print x +++ y)
      as [y Ey].
    { destruct items; [exists ""; cbn; now rewrite append_nil_r | eexists; reflexivity]. }
    assert (starts_with "]" (skip_ws (String.concat "," (map print (x :: items))
                                      +++ "]" +++ rest)) = None) as ->.
    { rewrite Ey, append_assoc, skip_ws_print. apply starts_with_print. auto. }
    rewrite !length_append in Hfuel. cbn [String.length] in Hfuel.
    rewrite parse_elements_print; auto; try congruence; lia.
  - destruct fuel as [|f]; [pose proof (print_length (VObj props)); lia|].
    inversion Hst as [| | | | |? Hnd Hprops]; subst.
    cbn [print] in *. cbn [String.append]. rewrite parse_value_object.
    rewrite (members_text_storable _ Hprops) in *.
    destruct props as [|[k x] props]; [reflexivity|].
    rewrite !append_assoc.
    assert (exists y, String.concat "," (map member_text ((k, x) :: props))
                      = String dquote y) as [y Ey].
    { destruct props; eexists; cbn [map String.concat]; unfold member_text, quote;
        cbn [String.append fst]; reflexivity. }
    assert (starts_with "}" (skip_ws (String.concat "," (map member_text ((k, x) :: props))
                                      +++ "}" +++ rest)) = None) as ->.
    { rewrite Ey. reflexivity. }
    rewrite !length_append in Hfuel. cbn [String.length] in Hfuel.
    rewrite parse_members_print; auto; try congruence; try lia.
    cbn [option_map]. now rewrite object_of_members_nodup.
Qed.

(** [JSON.parse(JSON.stringify(v))] is [v] again for every storable [v]. *)
Lemma JSON_parse_print (v : value) :
  storable v -> JSON_parse (print v) = Ok v.
Proof.
  intros Hst. unfold JSON_parse.
  rewrite <- (append_nil_r (print v)) at 2.
  rewrite (parse_print v Hst) by (try reflexivity; lia).
  reflexivity.
Qed.

(* ================================================================== *)
(** ** Running programs *)

Lemma run_bind {A B} (p : Prog A) (f : A -> Prog B) (w : World) :
  run (bind p f) w
  = match run p w with
    | (Ok a, w') => run (f a) w'
    | (Throw e, w') => (Throw e, w')
    end.
Proof.
  revert w. induction p as [a|e|T e k IH]; intros w; cbn [bind run]; try reflexivity.
  destruct (handle e w) as [r w']. apply IH.
Qed.

Lemma run_try_catch {A} (p : Prog A) (h : exn -> Prog A) (w : World) :
  run (try_catch p h) w
  = match run p w with
    | (Ok a, w') => (Ok a, w')
    | (Throw e, w') => run (h e) w'
    end.
Proof.
  revert w. induction p as [a|e|T e k IH]; intros w; cbn [try_catch run]; try reflexivity.
  destruct (handle e w) as [r w']. apply IH.
Qed.

Lemma run_finally {A} (p : Prog A) (fin : Prog unit) (w : World) :
  run (finally p fin) w
  = match run p w with
    | (Ok a, w') => run (bind fin (fun _ => Ret a)) w'
    | (Throw e, w') => run (bind fin (fun _ => Raise e)) w'
    end.
Proof.
  revert w. induction p as [a|e|T e k IH]; intros w; cbn [finally run]; try reflexivity.
  destruct (handle e w) as [r w']. apply IH.
Qed.

Lemma run_perform {B} (e : eff B) (w : World) :
  run (perform e) w = handle e w.
Proof.
  unfold perform. cbn [run]. destruct (handle e w) as [[b|x] w']; reflexivity.
Qed.

Lemma run_lift {A} (r : Res A) (w : World) : run (lift r) w = (r, w).
Proof. destruct r; reflexivity. Qed.

(** A program run to its end is the program advanced to its first [await],
    answered at once, and run on. *)
Lemma run_advance (p : Prog unit) (w : World) :
  run p w
  = match advance p w with
    | (Finished r, w') => (r, w')
    | (Parked (Suspended request k), w') =>
        let (r, w2) := handle request w' in run (k r) w2
    end.
Proof.
  revert w. induction p as [[]|e|T e k IH]; intros w; cbn [run advance]; try reflexivity.
  destruct (is_async e); [reflexivity|].
  destruct (handle e w) as [r w']. apply IH.
Qed.

(** ** [saveData] *)

Lemma run_saveData_guest (newData : value) (w : World) :
  run (saveData None newData) w
  = if storage_writable w
    then (Ok tt, with_localStorage
                   (setItem_in storage_key (storage_text newData) (localStorage w))
                   (with_data newData w))
    else (Throw QuotaExceededError, with_data newData w).
Proof.
  unfold saveData. rewrite run_bind, !run_perform. cbn.
  destruct (storage_writable w); reflexivity.
Qed.

Lemma run_saveData_remote (uid : string) (newData : value) (old : fields) (w : World) :
  online w = true -> lookup_doc uid (users w) = Some old ->
  run (saveData (Some uid) newData) w
  = (Ok tt,
     with_users (store_doc uid (write_fields (spread newData) old) (users w))
       (with_request (ReqUpdateDoc uid (spread newData)) (with_data newData w))).
Proof.
  intros Hon Hdoc. unfold saveData.
  rewrite run_bind, run_perform. cbn [handle].
  rewrite run_try_catch, run_perform. cbn. rewrite Hon, Hdoc. reflexivity.
Qed.

Lemma run_saveData_fallback (uid : string) (newData : value) (w : World) :
  remote_write_fails uid w = true ->
  run (saveData (Some uid) newData) w
  = let w1 := with_console "Error saving to Firestore:"
                (with_request (ReqUpdateDoc uid (spread newData))
                   (with_data newData w)) in
    if storage_writable w
    then (Ok tt,
          with_toast saved_locally_toast
            (with_localStorage
               (setItem_in storage_key (storage_text newData) (localStorage w)) w1))
    else (Throw QuotaExceededError, w1).
Proof.
  unfold remote_write_fails. intros Hfail. unfold saveData.
  rewrite run_bind, run_perform. cbn [handle].
  rewrite run_try_catch, run_perform. cbn [handle]. world_fields.
  destruct (online w); cbn [negb orb] in Hfail.
  - destruct (lookup_doc uid (users w)); [discriminate|].
    cbn. world_fields. destruct (storage_writable w); reflexivity.
  - cbn. world_fields. destruct (storage_writable w); reflexivity.
Qed.

(** [saveData] sets the state first; nothing after that touches it. *)
Lemma data_after_saveData (u : option string) (newData : value) (w : World) :
  data (snd (run (saveData u newData) w)) = newData.
Proof.
  destruct u as [uid|].
  - destruct (remote_write_fails uid w) eqn:Hfail.
    + rewrite run_saveData_fallback by assumption. cbn.
      destruct (storage_writable w); reflexivity.
    + unfold remote_write_fails in Hfail. apply orb_false_iff in Hfail as [Hon Hdoc].
      apply negb_false_iff in Hon.
      destruct (lookup_doc uid (users w)) as [old|] eqn:E; [|discriminate].
      rewrite (run_saveData_remote uid newData old) by assumption. reflexivity.
  - rewrite run_saveData_guest. destruct (storage_writable w); reflexivity.
Qed.

(** ** The mutations *)

(** Every mutation computes [newData], hands it to [saveData] and then shows
    its toast; when [newData] cannot be computed nothing happens. *)
Lemma run_call (m : mutation) (d : value) (u : option string) (w : World) :
  run (call m d u) w
  = match newData m d (clock w) with
    | Ok nd => run (saveData u nd ;; perform (ShowToast (confirmation m))) w
    | Throw e => (Throw e, w)
    end.
Proof.
  destruct m; cbn [call newData confirmation];
    unfold addToWatchlist, removeFromWatchlist, addToWatched, removeFromWatched,
      updateWatchedRating, addToFavorites, removeFromFavorites;
    rewrite run_bind, run_lift;
    try (destruct (list_of d _) as [items|e]; cbn [res_bind]; [|reflexivity]);
    try reflexivity.
  - destruct (filterM (id_differs id) items); cbn [res_bind]; [|reflexivity].
    rewrite run_bind, run_perform. reflexivity.
  - destruct (filterM (id_differs id) items); reflexivity.
  - destruct (mapM (rate id rating) items); reflexivity.
Qed.

Lemma strict_eq_id (a b : ContentId) :
  strict_eq (id_value a) (id_value b) = id_eqb a b.
Proof. destruct a, b; reflexivity. Qed.

Lemma id_eqb_eq (a b : ContentId) : id_eqb a b = true <-> a = b.
Proof.
  destruct a as [x|x], b as [y|y]; cbn; split; try discriminate; intros H.
  - apply String.eqb_eq in H. now subst.
  - injection H as ->. apply String.eqb_refl.
  - apply Z.eqb_eq in H. now subst.
  - injection H as ->. apply Z.eqb_refl.
Qed.

Lemma id_eqb_refl (a : ContentId) : id_eqb a a = true.
Proof. now apply id_eqb_eq. Qed.

Lemma without_ids (id : ContentId) (ids : list ContentId) :
  without id (map id_value ids) = map id_value (drop_id id ids).
Proof.
  induction ids as [|y ids IH]; [reflexivity|].
  cbn [map without drop_id filter]. rewrite strict_eq_id.
  fold (without id (map id_value ids)). fold (drop_id id ids).
  destruct (id_eqb y id); cbn [negb map]; now rewrite IH.
Qed.

Lemma id_differs_entry (id : ContentId) (e : WatchedEntry) :
  id_differs id (entry_value e) = Ok (negb (id_eqb (entry_id e) id)).
Proof.
  unfold id_differs, entry_value. cbn. now rewrite strict_eq_id.
Qed.

Lemma rate_entry (id : ContentId) (rating : Z) (e : WatchedEntry) :
  rate id rating (entry_value e) = Ok (entry_value (set_rating id rating e)).
Proof.
  unfold rate, set_rating, entry_value. cbn. rewrite strict_eq_id.
  destruct (id_eqb (entry_id e) id); reflexivity.
Qed.

Lemma filterM_entries (id : ContentId) (entries : list WatchedEntry) :
  filterM (id_differs id) (map entry_value entries)
  = Ok (map entry_value (drop_entry id entries)).
Proof.
  induction entries as [|e entries IH]; [reflexivity|].
  cbn [map filterM]. rewrite id_differs_entry, IH. cbn [res_bind drop_entry filter].
  destruct (id_eqb (entry_id e) id); reflexivity.
Qed.

Lemma mapM_entries (id : ContentId) (rating : Z) (entries : list WatchedEntry) :
  mapM (rate id rating) (map entry_value entries)
  = Ok (map entry_value (map (set_rating id rating) entries)).
Proof.
  induction entries as [|e entries IH]; [reflexivity|].
  cbn [map mapM]. rewrite rate_entry, IH. reflexivity.
Qed.

(** On a ListState the seven mutations are [mutate]. *)
Lemma newData_state (m : mutation) (st : ListState) (now : string) :
  newData m (state_value st) now = Ok (state_value (mutate now m st)).
Proof.
  destruct m; cbn [newData mutate];
    unfold list_of, state_value;
    cbn [get lookup String.eqb Ascii.eqb Bool.eqb res_bind as_array];
    rewrite ?filterM_entries, ?mapM_entries, ?without_ids;
    cbn [res_bind]; unfold with_list;
    cbn [spread set_prop String.eqb Ascii.eqb Bool.eqb
         watchlist watched favorites];
    rewrite ?map_app; reflexivity.
Qed.

(** A mutation called on a ListState, in any world. *)
Lemma run_mutation (m : mutation) (st : ListState) (w : World) :
  let w0 := with_data (state_value st) w in
  run (call m (data w0) (user w0)) w0
  = run (saveData (user w) (state_value (mutate (clock w) m st)) ;;
         perform (ShowToast (confirmation m))) w0.
Proof.
  cbn zeta. rewrite run_call. cbn [data user clock with_data].
  now rewrite newData_state.
Qed.

(** The optimistic update: whatever happens to the write, and whatever the
    state is by the time of the call, the state after a mutation is the new
    ListState computed from the ListState its render saw. *)
Lemma data_after_call (m : mutation) (st : ListState) (u : option string) (w : World) :
  data (snd (run (call m (state_value st) u) w))
  = state_value (mutate (clock w) m st).
Proof.
  rewrite run_call, newData_state, run_bind.
  pose proof (data_after_saveData u (state_value (mutate (clock w) m st)) w) as H.
  destruct (run (saveData _ _) _) as [[[]|e] w1]; cbn [snd] in *; [|assumption].
  rewrite run_perform. exact H.
Qed.

Lemma data_after_mutation (m : mutation) (st : ListState) (w : World) :
  let w0 := with_data (state_value st) w in
  data (snd (run (call m (data w0) (user w0)) w0))
  = state_value (mutate (clock w) m st).
Proof.
  exact (data_after_call m st (user w) (with_data (state_value st) w)).
Qed.

(** The new object of a mutation has the properties of the old one, except
    for the list the mutation writes; this holds for every state object on
    which the mutation does not throw. *)
Lemma newData_frame (m : mutation) (d nd : value) (now k : string) :
  newData m d now = Ok nd ->
  k <> own_list m ->
  get nd k = get d k.
Proof.
  intros H Hk.
  assert (forall items, get (with_list d (own_list m) items) k = get d k
                        \/ list_of d (own_list m) = Throw TypeError) as Hframe.
  { intros items. destruct d; try (right; reflexivity); try (right; now destruct m).
    left. unfold with_list. cbn [spread get]. rewrite lookup_set_prop.
    now destruct (String.eqb_spec k (own_list m)). }
  destruct m; cbn [newData own_list] in *;
    destruct (list_of d _) as [items|e] eqn:Hl; cbn [res_bind] in H; try discriminate H;
    repeat match type of H with
      | context [filterM ?f ?l] => destruct (filterM f l); cbn [res_bind] in H
      | context [mapM ?f ?l] => destruct (mapM f l); cbn [res_bind] in H
      end; try discriminate H;
    injection H as <-;
    match goal with
    | |- get (with_list _ _ ?x) _ = _ => destruct (Hframe x) as [E|E]; [exact E|congruence]
    end.
Qed.

(** ** A ListState and its object *)

Lemma id_value_inj (a b : ContentId) : id_value a = id_value b -> a = b.
Proof. destruct a, b; cbn; congruence. Qed.

Lemma entry_value_inj (a b : WatchedEntry) : entry_value a = entry_value b -> a = b.
Proof.
  destruct a as [ia ra da], b as [ib rb db]. unfold entry_value. cbn.
  intros H. injection H as Hi Hr Hd. apply id_value_inj in Hi. congruence.
Qed.

Lemma map_inj {A B} (f : A -> B) (l l' : list A) :
  (forall a b, f a = f b -> a = b) -> map f l = map f l' -> l = l'.
Proof.
  intros Hf. revert l'. induction l as [|x l IH]; intros [|y l'] H;
    try discriminate H; [reflexivity|].
  cbn [map] in H. injection H as Hx Hl. f_equal; auto.
Qed.

(** Different ListStates are different objects. *)
Lemma state_value_inj (st st' : ListState) :
  state_value st = state_value st' -> st = st'.
Proof.
  destruct st as [a b c], st' as [a' b' c']. unfold state_value. cbn.
  intros H. injection H as Ha Hb Hc.
  apply (map_inj _ _ _ id_value_inj) in Ha, Hc.
  apply (map_inj _ _ _ entry_value_inj) in Hb. congruence.
Qed.

(** ** Counting ids *)

Lemma count_id_app (y : ContentId) (a b : list ContentId) :
  count_id y (a ++ b) = count_id y a + count_id y b.
Proof.
  unfold count_id. now rewrite filter_app, length_app.
Qed.

Lemma count_id_drop (y x : ContentId) (ids : list ContentId) :
  count_id y (drop_id x ids) = if id_eqb y x then 0 else count_id y ids.
Proof.
  unfold count_id, drop_id.
  induction ids as [|z ids IH]; cbn [filter].
  - now destruct (id_eqb y x).
  - destruct (id_eqb z x) eqn:Ezx; cbn [negb filter].
    + apply id_eqb_eq in Ezx. subst z.
      destruct (id_eqb y x) eqn:Eyx; [exact IH|]. now rewrite IH.
    + destruct (id_eqb y z) eqn:Eyz; cbn [List.length]; rewrite IH.
      * apply id_eqb_eq in Eyz. subst z. now rewrite Ezx.
      * reflexivity.
Qed.

Lemma count_id_added (y x : ContentId) (ids : list ContentId) :
  count_id y (drop_id x ids ++ [x]) = if id_eqb y x then 1 else count_id y ids.
Proof.
  rewrite count_id_app, count_id_drop. unfold count_id at 2. cbn [filter].
  destruct (id_eqb y x); cbn [List.length]; lia.
Qed.

Lemma entry_ids_drop (x : ContentId) (entries : list WatchedEntry) :
  map entry_id (drop_entry x entries) = drop_id x (map entry_id entries).
Proof.
  unfold drop_entry, drop_id.
  induction entries as [|e entries IH]; [reflexivity|].
  cbn [filter map]. destruct (id_eqb (entry_id e) x); cbn [negb map]; now rewrite IH.
Qed.

Lemma own_ids_added (m : mutation) (x : ContentId) (now : string) (st : ListState) :
  match m with
  | AddToWatchlist z | AddToWatched z _ | AddToFavorites z => z = x
  | _ => False
  end ->
  own_ids m (mutate now m st) = drop_id x (own_ids m st) ++ [x].
Proof.
  destruct m; intros H; try contradiction; subst; cbn [own_ids mutate watchlist
    watched favorites]; try reflexivity.
  now rewrite map_app, entry_ids_drop.
Qed.

(** ** The watched entries of one id *)

Lemma entries_of_absent (x : ContentId) (entries : list WatchedEntry) :
  ~ In x (map entry_id entries) -> entries_of x entries = [].
Proof.
  unfold entries_of. induction entries as [|e entries IH]; [reflexivity|].
  cbn [map In filter]. intros H.
  destruct (id_eqb (entry_id e) x) eqn:E.
  - apply id_eqb_eq in E. tauto.
  - apply IH. tauto.
Qed.

Lemma entries_of_nodup (e : WatchedEntry) (entries : list WatchedEntry) :
  NoDup (map entry_id entries) -> In e entries ->
  entries_of (entry_id e) entries = [e].
Proof.
  induction entries as [|e0 entries IH]; [contradiction|].
  cbn [map]. intros Hnd [->|Hin].
  - inversion Hnd as [|? ? Hfresh _]; subst.
    unfold entries_of. cbn [filter]. rewrite id_eqb_refl.
    f_equal. now apply entries_of_absent.
  - inversion Hnd as [|? ? Hfresh Hrest]; subst.
    unfold entries_of. cbn [filter].
    destruct (id_eqb (entry_id e0) (entry_id e)) eqn:E.
    + apply id_eqb_eq in E. exfalso. apply Hfresh. rewrite E. now apply in_map.
    + now apply IH.
Qed.

Lemma entries_of_app (x : ContentId) (a b : list WatchedEntry) :
  entries_of x (a ++ b) = entries_of x a ++ entries_of x b.
Proof. apply filter_app. Qed.

Lemma entries_of_dropped (x : ContentId) (entries : list WatchedEntry) :
  entries_of x (drop_entry x entries) = [].
Proof.
  unfold entries_of, drop_entry.
  induction entries as [|e entries IH]; [reflexivity|].
  cbn [filter]. destruct (id_eqb (entry_id e) x) eqn:E; cbn [negb filter]; [exact IH|].
  now rewrite E.
Qed.

Lemma set_rating_id (x : ContentId) (r : Z) (e : WatchedEntry) :
  entry_id (set_rating x r e) = entry_id e.
Proof.
  unfold set_rating. now destruct (id_eqb (entry_id e) x).
Qed.

Lemma entries_of_rated (x : ContentId) (r : Z) (entries : list WatchedEntry) :
  entries_of x (map (set_rating x r) entries) = map (set_rating x r) (entries_of x entries).
Proof.
  unfold entries_of. induction entries as [|e entries IH]; [reflexivity|].
  cbn [map filter]. rewrite set_rating_id.
  destruct (id_eqb (entry_id e) x); cbn [map]; now rewrite IH.
Qed.

Lemma set_rating_frame (x : ContentId) (r : Z) (entries : list WatchedEntry) :
  map entry_id (map (set_rating x r) entries) = map entry_id entries
  /\ map entry_dateWatched (map (set_rating x r) entries) = map entry_dateWatched entries.
Proof.
  induction entries as [|e entries [IH1 IH2]]; [now split|].
  cbn [map]. rewrite IH1, IH2. unfold set_rating.
  destruct (id_eqb (entry_id e) x); now split.
Qed.

(* ================================================================== *)
(** * The mutations on the lists *)

Lemma state_after_mutate (m : mutation) (st : ListState) (w : World) :
  state_after m st w = state_value (mutate (clock w) m st).
Proof. apply data_after_mutation. Qed.

Lemma added_once_holds (m : mutation) (x : ContentId) (st : ListState) (w : World) :
  match m with
  | AddToWatchlist z | AddToWatched z _ | AddToFavorites z => z = x
  | _ => False
  end ->
  added_once m x st w.
Proof.
  intros Hm. exists (mutate (clock w) m st). split.
  - apply state_after_mutate.
  - intros y. rewrite (own_ids_added m x) by assumption. apply count_id_added.
Qed.

(** C7. Adding is deduplicating.  After [addToWatchlist(x)] followed by
    [addToWatchlist(x)] the watchlist holds [x] exactly once, whether the
    second call comes from the render after the first call or from the same
    render as the first; and after any one of the three adds of [x], the
    list it writes holds [x] exactly once and every other id as often as
    before, so a list without duplicates stays without duplicates. *)
Theorem add_deduplicates (st : ListState) (w : World) (x : ContentId)
        (rating : option Z) :
  (let w0 := with_data (state_value st) w in
   let w1 := snd (run (call (AddToWatchlist x) (data w0) (user w0)) w0) in
   let w2 := snd (run (call (AddToWatchlist x) (data w1) (user w1)) w1) in
   exists st2, data w2 = state_value st2 /\ count_id x (watchlist st2) = 1)
  /\ (let w0 := with_data (state_value st) w in
      let w1 := snd (run (call (AddToWatchlist x) (data w0) (user w0)) w0) in
      let w2 := snd (run (call (AddToWatchlist x) (data w0) (user w0)) w1) in
      exists st2, data w2 = state_value st2 /\ count_id x (watchlist st2) = 1)
  /\ added_once (AddToWatchlist x) x st w
  /\ added_once (AddToWatched x rating) x st w
  /\ added_once (AddToFavorites x) x st w.
Proof.
  split; [|split; [|repeat split; now apply added_once_holds]]; cbn zeta;
    set (w1 := snd (run (call (AddToWatchlist x) _ _) (with_data (state_value st) w))).
  - assert (data w1 = state_value (mutate (clock w) (AddToWatchlist x) st)) as H1
        by apply data_after_mutation.
    exists (mutate (clock w1) (AddToWatchlist x)
                   (mutate (clock w) (AddToWatchlist x) st)).
    split.
    + rewrite H1. apply data_after_call.
    + cbn [mutate watchlist]. rewrite count_id_added. now rewrite id_eqb_refl.
  - exists (mutate (clock w1) (AddToWatchlist x) st). split.
    + apply data_after_call.
    + cbn [mutate watchlist]. rewrite count_id_added. now rewrite id_eqb_refl.
Qed.

(** C8. When the watched list has one entry per id and holds an entry for
    [x], [updateWatchedRating(x, r)] leaves exactly one entry for [x]; its
    rating is [r] and its [dateWatched] is the one it had.  No entry of the
    list changes its id or its [dateWatched]. *)
Theorem rating_update_keeps_date (st : ListState) (w : World) (e : WatchedEntry)
        (r : Z) :
  NoDup (map entry_id (watched st)) ->
  In e (watched st) ->
  exists st',
    state_after (UpdateWatchedRating (entry_id e) r) st w = state_value st'
    /\ entries_of (entry_id e) (watched st')
       = [mkEntry (entry_id e) r (entry_dateWatched e)]
    /\ map entry_id (watched st') = map entry_id (watched st)
    /\ map entry_dateWatched (watched st') = map entry_dateWatched (watched st).
Proof.
  intros Hnd Hin.
  exists (mutate (clock w) (UpdateWatchedRating (entry_id e) r) st).
  split; [apply state_after_mutate|].
  cbn [mutate watched]. split; [|apply set_rating_frame].
  rewrite entries_of_rated, (entries_of_nodup e) by assumption.
  cbn [map]. unfold set_rating. now rewrite id_eqb_refl.
Qed.

(** [addToWatched(x, r0)] and then [updateWatchedRating(x, r)], from any
    ListState: one entry for [x], rated [r], dated by [addToWatched]. *)
Lemma watched_then_rated (st : ListState) (w : World) (x : ContentId)
      (r0 : option Z) (r : Z) :
  let w0 := with_data (state_value st) w in
  let w1 := snd (run (call (AddToWatched x r0) (data w0) (user w0)) w0) in
  let w2 := snd (run (call (UpdateWatchedRating x r) (data w1) (user w1)) w1) in
  exists st2, data w2 = state_value st2
    /\ entries_of x (watched st2) = [mkEntry x r (before_T (clock w))].
Proof.
  cbn zeta.
  set (w1 := snd (run (call (AddToWatched x r0) _ _) (with_data (state_value st) w))).
  assert (data w1 = state_value (mutate (clock w) (AddToWatched x r0) st)) as H1
      by apply data_after_mutation.
  exists (mutate (clock w1) (UpdateWatchedRating x r)
                 (mutate (clock w) (AddToWatched x r0) st)).
  split; [rewrite H1; apply data_after_call|].
  cbn [mutate watched]. rewrite entries_of_rated, entries_of_app, entries_of_dropped.
  cbn [app entries_of filter entry_id map]. rewrite id_eqb_refl. cbn [map].
  unfold set_rating. cbn [entry_id entry_dateWatched]. now rewrite id_eqb_refl.
Qed.

Lemma rating_update_keeps_date_witness :
  NoDup (map entry_id (watched some_lists))
  /\ In seven (watched some_lists)
  /\ exists st',
       state_after (UpdateWatchedRating (IdStr "7") 9) some_lists guest_world
       = state_value st'
       /\ entries_of (IdStr "7") (watched st') = [mkEntry (IdStr "7") 9 "2024-04-30"].
Proof.
  assert (NoDup (map entry_id (watched some_lists))) as Hnd
      by (repeat constructor; intros []).
  assert (In seven (watched some_lists)) as Hin by (left; reflexivity).
  repeat split; try assumption.
  destruct (rating_update_keeps_date some_lists guest_world seven 9 Hnd Hin)
    as (st' & Hstate & Hentries & _).
  exists st'. split; [exact Hstate | exact Hentries].
Defined.

(** C10. Every mutation touches only its own list: the watchlist mutations
    leave watched and favorites as they were, the watched mutations leave
    watchlist and favorites, the favorites mutations leave watchlist and
    watched. *)
Theorem mutation_touches_own_list (m : mutation) (st : ListState) (w : World) :
  exists st', state_after m st w = state_value st' /\ other_lists_kept m st st'.
Proof.
  exists (mutate (clock w) m st). split; [apply state_after_mutate|].
  destruct m; cbn; split; reflexivity.
Qed.

(* ================================================================== *)
(** * Persistence *)

(** ** A ListState prints to JSON text and parses back *)

Lemma storable_ids (ids : list ContentId) : Forall storable (map id_value ids).
Proof.
  induction ids as [|[s|n] ids IH]; cbn [map]; constructor; auto; constructor.
Qed.

Lemma three_keys_distinct (a b c : string) :
  a <> b -> a <> c -> b <> c -> NoDup [a; b; c].
Proof.
  intros Hab Hac Hbc. repeat constructor; cbn [In]; intuition congruence.
Qed.

Lemma storable_entry (e : WatchedEntry) : storable (entry_value e).
Proof.
  unfold entry_value. constructor.
  - cbn [map fst]. apply three_keys_distinct; discriminate.
  - repeat (apply Forall_cons; [cbn [snd]; try constructor|]); [|apply Forall_nil].
    destruct (entry_id e); constructor.
Qed.

Lemma storable_entries (entries : list WatchedEntry) :
  Forall storable (map entry_value entries).
Proof.
  induction entries as [|e entries IH]; cbn [map]; constructor; auto.
  apply storable_entry.
Qed.

Lemma storable_state (st : ListState) : storable (state_value st).
Proof.
  unfold state_value. constructor.
  - cbn [map fst]. apply three_keys_distinct; discriminate.
  - repeat (apply Forall_cons;
            [cbn [snd]; constructor; auto using storable_ids, storable_entries|]).
    apply Forall_nil.
Qed.

Lemma print_not_empty (v : value) : String.eqb (print v) "" = false.
Proof.
  destruct (print_head v) as (c & s & E & _). now rewrite E.
Qed.

Lemma getItem_setItem (k text : string) (items : list (string * string)) :
  getItem_in k (setItem_in k text items) = Some text.
Proof.
  induction items as [|[k' v'] items IH]; cbn [setItem_in getItem_in].
  - now rewrite String.eqb_refl.
  - destruct (String.eqb k k') eqn:E; cbn [getItem_in]; now rewrite E.
Qed.

(** ** [loadLocalData] *)

Lemma run_loadLocalData_parsed (text : string) (v : value) (w : World) :
  storage_readable w = true ->
  getItem_in storage_key (localStorage w) = Some text ->
  String.eqb text "" = false ->
  JSON_parse text = Ok v ->
  run loadLocalData w = (Ok tt, with_loading false (with_data v w)).
Proof.
  intros Hread Hitem Hne Hparse. unfold loadLocalData.
  rewrite run_finally, run_try_catch, run_bind, run_perform.
  cbn [handle]. rewrite Hread, Hitem, Hne.
  rewrite run_bind, run_lift, Hparse, run_perform. reflexivity.
Qed.

Lemma run_loadLocalData_absent (w : World) :
  storage_readable w = true ->
  getItem_in storage_key (localStorage w) = None ->
  run loadLocalData w = (Ok tt, with_loading false w).
Proof.
  intros Hread Hitem. unfold loadLocalData.
  rewrite run_finally, run_try_catch, run_bind, run_perform.
  cbn [handle]. rewrite Hread, Hitem. reflexivity.
Qed.

(** [loadLocalData] never throws, and it leaves the state alone unless it
    read and parsed a stored text. *)
Lemma run_loadLocalData_cases (w : World) :
  exists w', run loadLocalData w = (Ok tt, w')
    /\ toasts w' = toasts w
    /\ (data w' = data w
        \/ exists text, getItem_in storage_key (localStorage w) = Some text
                        /\ JSON_parse text = Ok (data w')).
Proof.
  unfold loadLocalData.
  rewrite run_finally, run_try_catch, run_bind, run_perform. cbn [handle].
  destruct (storage_readable w).
  - destruct (getItem_in storage_key (localStorage w)) as [text|] eqn:Hitem.
    + destruct (String.eqb text "").
      * eexists; repeat split; auto.
      * rewrite run_bind, run_lift.
        destruct (JSON_parse text) as [v|e] eqn:Hparse.
        -- rewrite run_perform. cbn. eexists; repeat split. right. now exists text.
        -- cbn. eexists; repeat split; auto.
    + eexists; repeat split; auto.
  - cbn. eexists; repeat split; auto.
Qed.

(* ================================================================== *)
(** * Failures of the stores during a mutation *)

Lemma remote_write_fails_data (uid : string) (v : value) (w : World) :
  remote_write_fails uid (with_data v w) = remote_write_fails uid w.
Proof. reflexivity. Qed.

(** User "A" of [offline_quota_world] calls [addToWatchlist(550)]: the
    remote write fails, the write to [localStorage] in the [catch] throws,
    the promise is rejected with the storage exception, nothing is stored
    and no toast is shown. *)
Lemma fallback_write_throws :
  user offline_quota_world = Some "A"
  /\ remote_write_fails "A" offline_quota_world = true
  /\ exists w',
       run (call (AddToWatchlist (IdNum 550)) (data offline_quota_world)
                 (user offline_quota_world)) offline_quota_world
       = (Throw QuotaExceededError, w')
       /\ data w' = state_value (mkListState [IdNum 550] [] [])
       /\ getItem_in storage_key (localStorage w') = None
       /\ toasts w' = []
       /\ requests w' = [ReqUpdateDoc "A" (spread (state_value (mkListState [IdNum 550] [] [])))].
Proof.
  split; [reflexivity|]. split; [reflexivity|].
  eexists. split; [reflexivity|]. repeat split.
Qed.

(** C4, as the hook has it.  When the remote write of a signed-in user's
    mutation fails and [localStorage] takes the write, the state stays the
    optimistic new ListState, the whole new ListState is written to
    [localStorage], the "Saved locally" toast is shown, and [updateDoc] is
    called once and not again. *)
Theorem remote_failure_saves_locally (m : mutation) (st : ListState) (w : World)
        (uid : string) :
  user w = Some uid ->
  remote_write_fails uid w = true ->
  storage_writable w = true ->
  let w0 := with_data (state_value st) w in
  let new := state_value (mutate (clock w) m st) in
  exists w',
    run (call m (data w0) (user w0)) w0 = (Ok tt, w')
    /\ data w' = new
    /\ getItem_in storage_key (localStorage w') = Some (print new)
    /\ JSON_parse (print new) = Ok new
    /\ toasts w' = toasts w ++ [saved_locally_toast; confirmation m]
    /\ requests w' = requests w ++ [ReqUpdateDoc uid (spread new)]
    /\ users w' = users w.
Proof.
  intros Huser Hfail Hwrite. cbn zeta.
  rewrite run_mutation, run_bind, Huser.
  rewrite run_saveData_fallback by (now rewrite remote_write_fails_data).
  cbn zeta.
  change (storage_writable (with_data (state_value st) w)) with (storage_writable w).
  rewrite Hwrite, run_perform.
  eexists. split; [reflexivity|].
  split; [reflexivity|].
  split; [apply getItem_setItem|].
  split; [apply JSON_parse_print, storable_state|].
  split; [cbn; now rewrite <- app_assoc|].
  split; reflexivity.
Qed.

Lemma remote_failure_saves_locally_witness :
  user offline_world = Some "A"
  /\ remote_write_fails "A" offline_world = true
  /\ storage_writable offline_world = true
  /\ exists w',
       run (call (AddToWatched (IdStr "7") (Some 8%Z))
                 (data (with_data (state_value some_lists) offline_world))
                 (user (with_data (state_value some_lists) offline_world)))
           (with_data (state_value some_lists) offline_world) = (Ok tt, w')
       /\ toasts w' = [saved_locally_toast;
                       confirmation (AddToWatched (IdStr "7") (Some 8%Z))].
Proof.
  repeat split.
  destruct (remote_failure_saves_locally
              (AddToWatched (IdStr "7") (Some 8%Z)) some_lists offline_world "A"
              eq_refl eq_refl eq_refl) as (w' & Hrun & _ & _ & _ & Htoasts & _).
  exists w'. split; [exact Hrun | exact Htoasts].
Defined.

(** The guest [quota_world] calls [addToFavorites("42")] while
    [localStorage.setItem] throws: the promise is rejected with the storage
    exception and no toast is shown. *)
Lemma quota_error_escapes :
  run (call (AddToFavorites (IdStr "42")) (data quota_world) (user quota_world))
      quota_world
  = (Throw QuotaExceededError,
     with_data (state_value (mkListState [] [] [IdStr "42"])) quota_world).
Proof. reflexivity. Qed.

(** C2, as the hook has it.  When the write to [localStorage] throws, the
    exception leaves the mutation (its promise is rejected) and the toasts
    that would follow the write are not shown; the state keeps the
    optimistic new ListState, and [localStorage] is as it was. *)
Theorem local_write_failure_propagates (m : mutation) (st : ListState) (w : World) :
  writes_locally w = true ->
  storage_writable w = false ->
  let w0 := with_data (state_value st) w in
  exists w',
    run (call m (data w0) (user w0)) w0 = (Throw QuotaExceededError, w')
    /\ data w' = state_value (mutate (clock w) m st)
    /\ toasts w' = toasts w
    /\ localStorage w' = localStorage w.
Proof.
  intros Hlocal Hwrite. cbn zeta. rewrite run_mutation, run_bind.
  unfold writes_locally in Hlocal. destruct (user w) as [uid|].
  - rewrite run_saveData_fallback by (now rewrite remote_write_fails_data).
    cbn zeta.
    change (storage_writable (with_data (state_value st) w)) with (storage_writable w).
    rewrite Hwrite.
    eexists. split; [reflexivity|]. split; [reflexivity|]. split; reflexivity.
  - rewrite run_saveData_guest.
    change (storage_writable (with_data (state_value st) w)) with (storage_writable w).
    rewrite Hwrite.
    eexists. split; [reflexivity|]. split; [reflexivity|]. split; reflexivity.
Qed.

Lemma local_write_failure_propagates_witness :
  writes_locally quota_world = true
  /\ storage_writable quota_world = false
  /\ exists w',
       run (call (AddToFavorites (IdStr "42"))
                 (data (with_data (state_value some_lists) quota_world))
                 (user (with_data (state_value some_lists) quota_world)))
           (with_data (state_value some_lists) quota_world)
       = (Throw QuotaExceededError, w')
       /\ toasts w' = [].
Proof.
  repeat split.
  destruct (local_write_failure_propagates
              (AddToFavorites (IdStr "42")) some_lists quota_world
              eq_refl eq_refl) as (w' & Hrun & _ & Htoasts & _).
  exists w'. split; [exact Hrun | exact Htoasts].
Defined.

(** C9. A guest's ListState written to [localStorage] by [saveData] and
    read back by the guest load is the same ListState, whatever the state
    held in between. *)
Theorem local_round_trip (st : ListState) (w : World) (stale : value) :
  user w = None ->
  storage_writable w = true ->
  storage_readable w = true ->
  let w1 := snd (run (saveData (user w) (state_value st)) w) in
  let w2 := snd (run (effect (user w1) true) (with_data stale w1)) in
  data w2 = state_value st
  /\ JSON_stringify (state_value st) = getItem_in storage_key (localStorage w1).
Proof.
  intros Huser Hwrite Hread. cbn zeta.
  rewrite Huser, run_saveData_guest, Hwrite. cbn [snd].
  set (w1 := with_localStorage _ _).
  assert (getItem_in storage_key (localStorage w1)
          = Some (print (state_value st))) as Hitem by apply getItem_setItem.
  change (user (with_data stale w1)) with (user w).
  change (user w1) with (user w). rewrite Huser. cbn [effect negb].
  rewrite (run_loadLocalData_parsed (print (state_value st)) (state_value st)).
  - split; [reflexivity|]. now rewrite Hitem.
  - exact Hread.
  - exact Hitem.
  - apply print_not_empty.
  - apply JSON_parse_print, storable_state.
Qed.

Lemma local_round_trip_witness :
  user guest_world = None
  /\ storage_writable guest_world = true
  /\ storage_readable guest_world = true
  /\ data (snd (run (effect None true)
                    (with_data VNull
                       (snd (run (saveData None (state_value some_lists))
                                 guest_world)))))
     = state_value some_lists.
Proof.
  split; [reflexivity|]. split; [reflexivity|]. split; [reflexivity|].
  exact (proj1 (local_round_trip some_lists guest_world VNull
                                 eq_refl eq_refl eq_refl)).
Defined.

(* ================================================================== *)
(** * Loading *)

(** ** What a function can change before its first [await] *)

Lemma handle_sync_frame {B} (e : eff B) (w : World) :
  is_async e = false ->
  user (snd (handle e w)) = user w
  /\ online (snd (handle e w)) = online w
  /\ users (snd (handle e w)) = users w.
Proof.
  destruct e; cbn [is_async handle]; intros H; try discriminate H;
    try (now repeat split).
  - destruct (storage_readable w); now repeat split.
  - destruct (storage_writable w); now repeat split.
Qed.

Lemma advance_frame (p : Prog unit) (w : World) :
  user (snd (advance p w)) = user w
  /\ online (snd (advance p w)) = online w
  /\ users (snd (advance p w)) = users w.
Proof.
  revert w. induction p as [a|e|T e k IH]; intros w; cbn [advance];
    try (now repeat split).
  destruct (is_async e) eqn:Ha; [now repeat split|].
  destruct (handle_sync_frame e w Ha) as (Hu & Ho & Hd).
  destruct (handle e w) as [r w']. cbn [snd] in *.
  destruct (IH r w') as (Hu' & Ho' & Hd').
  repeat split; congruence.
Qed.

Lemma start_frame (p : Prog unit) (s : System) :
  user (world (start p s)) = user (world s)
  /\ online (world (start p s)) = online (world s)
  /\ users (world (start p s)) = users (world s)
  /\ exists more, pending (start p s) = pending s ++ more.
Proof.
  unfold start. pose proof (advance_frame p (world s)) as (Hu & Ho & Hd).
  destruct (advance p (world s)) as [[[[]|e]|t] w']; cbn [snd world pending] in *;
    repeat split; auto; eexists; try (now rewrite List.app_nil_r); reflexivity.
Qed.

(** A change of the user never removes a pending function. *)
Lemma auth_change_keeps_pending (s : System) (u : option string) :
  user (world (step s (AuthChanged u))) = u
  /\ online (world (step s (AuthChanged u))) = online (world s)
  /\ users (world (step s (AuthChanged u))) = users (world s)
  /\ exists more, pending (step s (AuthChanged u)) = pending s ++ more.
Proof.
  cbn [step].
  destruct (same_user (user (world s)) u && initialized (world s)).
  - cbn. repeat split. exists []. now rewrite List.app_nil_r.
  - destruct (start_frame (effect u true)
                (mkSystem (with_auth u (world s)) (pending s) (rejected s)))
      as (Hu & Ho & Hd & Hp).
    repeat split; assumption.
Qed.

(** ** [loadUserData] *)

(** An existing document always yields the three lists. *)
Lemma loadUserData_fills_missing_lists (uid : string) (userData : fields) (w : World) :
  online w = true ->
  lookup_doc uid (users w) = Some userData ->
  exists w', run (loadUserData (Some uid)) w = (Ok tt, w')
    /\ data w' = lists_of_doc userData
    /\ has_lists (data w') = true.
Proof.
  intros Hon Hdoc. unfold loadUserData.
  rewrite run_finally, run_try_catch, run_bind, run_perform.
  cbn [handle].
  change (online (with_request (ReqGetDoc uid) w)) with (online w).
  change (users (with_request (ReqGetDoc uid) w)) with (users w).
  rewrite Hon, Hdoc, run_perform.
  eexists. split; [reflexivity|]. split; reflexivity.
Qed.

(** When the fetch fails, the load falls back to [loadLocalData] and shows
    the offline toast once; it does not throw. *)
Lemma loadUserData_offline (uid : string) (w : World) :
  online w = false ->
  exists w', run (loadUserData (Some uid)) w = (Ok tt, w')
    /\ toasts w' = toasts w ++ [offline_toast]
    /\ (data w' = data w
        \/ exists text, getItem_in storage_key (localStorage w) = Some text
                        /\ JSON_parse text = Ok (data w')).
Proof.
  intros Hoff. unfold loadUserData.
  rewrite run_finally, run_try_catch, run_bind, run_perform.
  cbn [handle].
  change (online (with_request (ReqGetDoc uid) w)) with (online w).
  rewrite Hoff.
  rewrite run_bind, run_perform. cbn [handle]. rewrite run_bind.
  destruct (run_loadLocalData_cases
              (with_console "Error loading user data:" (with_request (ReqGetDoc uid) w)))
    as (w1 & Hrun & Ht & Hd).
  rewrite Hrun, run_perform.
  eexists. split; [reflexivity|]. split.
  - cbn. now rewrite Ht.
  - exact Hd.
Qed.

(** C3, at the failing input.  The guest's stored text holds the watchlist
    alone: after the load the state has no [watched] and no [favorites], and
    [addToWatched] then throws. *)
Theorem partial_text_partially_hydrates :
  data (world partial_guest) = VObj [("watchlist", VArr [VNum 1])]
  /\ has_lists (data (world partial_guest)) = false
  /\ get (data (world partial_guest)) "watched" = Ok VUndefined
  /\ fst (run (call (AddToWatched (IdNum 7) None)
                    (data (world partial_guest)) (user (world partial_guest)))
              (world partial_guest))
     = Throw TypeError.
Proof. vm_compute. repeat split. Qed.

(** C5, at the failing input.  "B" signs in after "A" signed out; the fetch
    for "B" fails and [localStorage] is empty: the state is still the list
    of "A", not the empty default.  The offline toast is shown once and
    nothing is rejected. *)
Theorem failed_fetch_keeps_previous_lists :
  user (world b_after_a) = Some "B"
  /\ localStorage (world b_after_a) = []
  /\ data (world b_after_a) = state_value lists_of_A
  /\ data (world b_after_a) <> empty_lists
  /\ toasts (world b_after_a) = [offline_toast]
  /\ rejected b_after_a = [].
Proof.
  vm_compute. repeat split. discriminate.
Qed.

(** C6, at the failing input.  The user document was created and movie 550
    stored in its watchlist between the [getDoc] and the [setDoc] of the
    load: the merge write of the load empties the stored watchlist, and the
    load empties the state. *)
Theorem ensure_overwrites_lists :
  lookup_doc "A" (users (world before_ensure_arrives)) = Some doc_of_A
  /\ data (world before_ensure_arrives) = state_value lists_of_A
  /\ requests (world ensure_race)
     = [ReqGetDoc "A"; ReqUpdateDoc "A" doc_of_A; ReqSetDocMerge "A" empty_fields]
  /\ lookup_doc "A" (users (world ensure_race)) = Some empty_fields
  /\ data (world ensure_race) = empty_lists.
Proof. vm_compute. repeat split. Qed.

(** When no document appears in between, the load creates the empty
    document with one merge write and the state becomes the empty lists. *)
Lemma loadUserData_creates_document (uid : string) (w : World) :
  online w = true ->
  lookup_doc uid (users w) = None ->
  exists w', run (loadUserData (Some uid)) w = (Ok tt, w')
    /\ requests w' = requests w ++ [ReqGetDoc uid; ReqSetDocMerge uid empty_fields]
    /\ users w' = store_doc uid empty_fields (users w)
    /\ data w' = empty_lists.
Proof.
  intros Hon Hdoc. unfold loadUserData.
  rewrite run_finally, run_try_catch, run_bind, run_perform.
  cbn [handle].
  change (online (with_request (ReqGetDoc uid) w)) with (online w).
  change (users (with_request (ReqGetDoc uid) w)) with (users w).
  rewrite Hon, Hdoc, run_bind, run_perform. cbn [handle].
  change (online (with_request _ (with_request _ w))) with (online w).
  change (users (with_request _ (with_request _ w))) with (users w).
  rewrite Hon, Hdoc, run_perform.
  eexists. split; [reflexivity|].
  split; [cbn; now rewrite <- app_assoc|]. split; reflexivity.
Qed.

(** The merge write keeps the fields it does not name and replaces the
    three lists. *)
Lemma merge_write_fields (k : string) (old : fields) :
  lookup k (write_fields empty_fields old)
  = if String.eqb k "favorites" || String.eqb k "watched" || String.eqb k "watchlist"
    then Some (VArr [])
    else lookup k old.
Proof.
  unfold write_fields, empty_fields. cbn [fold_left fst snd].
  rewrite !lookup_set_prop.
  destruct (String.eqb k "favorites"), (String.eqb k "watched"),
    (String.eqb k "watchlist"); reflexivity.
Qed.

(** ** A load in flight while the user changes *)

(** With the sign-out the guest's lists are loaded; then the fetch for "A"
    completes and overwrites them, although nobody is signed in. *)
Lemma stale_load_overwrites :
  List.length (pending sign_in_then_out) = 1
  /\ user (world sign_in_then_out) = None
  /\ data (world sign_in_then_out) = state_value guest_lists
  /\ user (world (step sign_in_then_out (Completes 0))) = None
  /\ data (world (step sign_in_then_out (Completes 0))) = state_value lists_of_A.
Proof. vm_compute. repeat split. Qed.

(** C1, as the hook has it.  A load in flight is not abandoned when the
    user changes: it stays pending, and when its fetch completes and finds
    the document, the state becomes the lists of that document, whoever is
    signed in by then. *)
Theorem stale_load_is_applied (s : System) (u : option string) (i : nat)
        (uid : string) (t : task) (userData : fields) :
  first_park (loadUserData (Some uid)) = Some t ->
  nth_error (pending s) i = Some t ->
  online (world s) = true ->
  lookup_doc uid (users (world s)) = Some userData ->
  let s' := step s (AuthChanged u) in
  nth_error (pending s') i = Some t
  /\ user (world s') = u
  /\ data (world (step s' (Completes i))) = lists_of_doc userData.
Proof.
  intros Hpark Hnth Hon Hdoc. cbn zeta.
  destruct (auth_change_keeps_pending s u) as (Hu & Ho & Hd & more & Hp).
  set (s' := step s (AuthChanged u)) in *.
  assert (nth_error (pending s') i = Some t) as Hnth'.
  { rewrite Hp, nth_error_app1; [assumption|].
    apply nth_error_Some. congruence. }
  split; [assumption|]. split; [assumption|].
  cbn [step]. rewrite Hnth'.
  cbn in Hpark. injection Hpark as <-.
  cbn [handle].
  change (online (with_request (ReqGetDoc uid) (world s'))) with (online (world s')).
  change (users (with_request (ReqGetDoc uid) (world s'))) with (users (world s')).
  rewrite Ho, Hon, Hd, Hdoc. reflexivity.
Qed.

Lemma stale_load_is_applied_witness :
  data (world (step (step (exec (mount [] [("A", doc_of_A)] true noon)
                                [AuthChanged (Some "A")])
                          (AuthChanged None))
                    (Completes 0)))
  = lists_of_doc doc_of_A.
Proof.
  exact (proj2 (proj2 (stale_load_is_applied
           (exec (mount [] [("A", doc_of_A)] true noon) [AuthChanged (Some "A")])
           None 0 "A" _ doc_of_A eq_refl eq_refl eq_refl eq_refl))).
Defined.

(* ================================================================== *)
(** * The queries and the card buttons *)

Lemma id_eqb_sym (a b : ContentId) : id_eqb a b = id_eqb b a.
Proof.
  destruct a, b; cbn; auto using String.eqb_sym, Z.eqb_sym.
Qed.

Lemma id_eqb_neq (a b : ContentId) : a <> b -> id_eqb a b = false.
Proof.
  intros H. destruct (id_eqb a b) eqn:E; [|reflexivity].
  apply id_eqb_eq in E. contradiction.
Qed.

Lemma member_app (y : ContentId) (a b : list ContentId) :
  member y (a ++ b) = member y a || member y b.
Proof. apply existsb_app. Qed.

Lemma member_drop (y x : ContentId) (ids : list ContentId) :
  member y (drop_id x ids) = negb (id_eqb y x) && member y ids.
Proof.
  unfold member, drop_id. induction ids as [|z ids IH]; cbn [filter existsb].
  - now rewrite andb_false_r.
  - destruct (id_eqb z x) eqn:Ezx; cbn [negb existsb]; rewrite IH.
    + apply id_eqb_eq in Ezx. subst z. rewrite (id_eqb_sym x y).
      now destruct (id_eqb y x).
    + destruct (id_eqb z y) eqn:Ezy; [|reflexivity].
      apply id_eqb_eq in Ezy. subst z. now rewrite Ezx.
Qed.

Lemma member_rated (y x : ContentId) (r : Z) (entries : list WatchedEntry) :
  member y (map entry_id (map (set_rating x r) entries))
  = member y (map entry_id entries).
Proof. now rewrite (proj1 (set_rating_frame x r entries)). Qed.

(** On a ListState the three queries are membership in the three lists. *)
Lemma includes_ids (x : ContentId) (ids : list ContentId) :
  includes (VArr (map id_value ids)) x = Ok (member x ids).
Proof.
  unfold includes, member. f_equal.
  induction ids as [|y ids IH]; [reflexivity|].
  cbn [map existsb]. now rewrite strict_eq_id, IH.
Qed.

Lemma someM_entries (x : ContentId) (entries : list WatchedEntry) :
  someM (id_matches x) (map entry_value entries)
  = Ok (member x (map entry_id entries)).
Proof.
  unfold member. induction entries as [|e entries IH]; [reflexivity|].
  cbn [map someM existsb]. unfold id_matches at 1. cbn [entry_value get lookup].
  cbn. rewrite strict_eq_id.
  destruct (id_eqb (entry_id e) x); [reflexivity | exact IH].
Qed.

Lemma card_flags_state (st : ListState) (y : ContentId) :
  card_flags (state_value st) y = Ok (flags_of st y).
Proof.
  unfold card_flags, isFavorite, isInWatchlist, isInWatched, state_value.
  cbn [get lookup String.eqb Ascii.eqb Bool.eqb res_bind as_array].
  now rewrite !includes_ids, someM_entries.
Qed.

Lemma own_query_state (m : mutation) (st : ListState) (y : ContentId) :
  own_query m (state_value st) y = Ok (member y (own_ids m st)).
Proof.
  destruct m; cbn [own_query own_ids];
    unfold isFavorite, isInWatchlist, isInWatched, state_value;
    cbn [get lookup String.eqb Ascii.eqb Bool.eqb res_bind as_array];
    now rewrite ?includes_ids, ?someM_entries.
Qed.

(** X1. The query of the written list, asked for the id of the mutation,
    answers [true] after each add and [false] after each remove; a rating
    update leaves the answer as it was. *)
Theorem query_reflects_mutation (m : mutation) (st : ListState) (w : World) :
  own_query m (state_after m st w) (target m)
  = Ok (match m with
        | AddToWatchlist _ | AddToWatched _ _ | AddToFavorites _ => true
        | RemoveFromWatchlist _ | RemoveFromWatched _ | RemoveFromFavorites _ => false
        | UpdateWatchedRating x _ => member x (map entry_id (watched st))
        end).
Proof.
  rewrite state_after_mutate, own_query_state. f_equal.
  destruct m; cbn [own_ids mutate target watchlist watched favorites];
    rewrite ?map_app, ?entry_ids_drop, ?member_app, ?member_drop, ?member_rated,
      ?id_eqb_refl;
    cbn [negb andb map entry_id member existsb]; rewrite ?id_eqb_refl;
    try reflexivity; now rewrite ?orb_true_r.
Qed.

Lemma flags_of_other (m : mutation) (now : string) (st : ListState) (y : ContentId) :
  y <> target m -> flags_of (mutate now m st) y = flags_of st y.
Proof.
  intros Hy. apply id_eqb_neq in Hy.
  assert (id_eqb (target m) y = false) as Hy' by now rewrite id_eqb_sym.
  unfold flags_of.
  destruct m; cbn [mutate target watchlist watched favorites] in *;
    rewrite ?map_app, ?entry_ids_drop, ?member_app, ?member_drop, ?member_rated, ?Hy;
    cbn [negb andb map entry_id member existsb]; rewrite ?Hy', ?orb_false_r;
    reflexivity.
Qed.

(** X2. A mutation called with the id [x] changes no answer for another
    id: the three flags of every card of another movie are what they
    were. *)
Theorem queries_of_other_ids_kept (m : mutation) (st : ListState) (w : World)
        (y : ContentId) :
  y <> target m ->
  card_flags (state_after m st w) y = card_flags (state_value st) y.
Proof.
  intros Hy. rewrite state_after_mutate, !card_flags_state.
  now rewrite flags_of_other.
Qed.

Lemma queries_of_other_ids_kept_witness :
  IdStr "550" <> target (AddToWatchlist (IdNum 550))
  /\ card_flags (state_after (AddToWatchlist (IdNum 550)) guest_lists guest_world)
                (IdStr "550")
     = card_flags (state_value guest_lists) (IdStr "550").
Proof.
  assert (IdStr "550" <> target (AddToWatchlist (IdNum 550))) as H by discriminate.
  split; [exact H|].
  exact (queries_of_other_ids_kept (AddToWatchlist (IdNum 550)) guest_lists
                                   guest_world (IdStr "550") H).
Defined.

(** The flags of a card after the click on one of its buttons. *)
Lemma flags_after_click (b : button) (now : string) (st : ListState) (x : ContentId) :
  flags_of (mutate now (onClick b (flags_of st x) x) st) x
  = match b with
    | FavoriteButton =>
        mkFlags (negb (fav (flags_of st x))) (inList (flags_of st x))
                (watchedFlag (flags_of st x))
    | WatchlistButton =>
        mkFlags (fav (flags_of st x)) (negb (inList (flags_of st x)))
                (watchedFlag (flags_of st x))
    | WatchedButton =>
        mkFlags (fav (flags_of st x)) (inList (flags_of st x))
                (negb (watchedFlag (flags_of st x)))
    end.
Proof.
  destruct b; cbn [onClick flags_of fav inList watchedFlag].
  - destruct (member x (favorites st)) eqn:E; unfold flags_of;
      cbn [mutate watchlist watched favorites];
      rewrite ?member_app, ?member_drop, ?id_eqb_refl, ?E;
      cbn [member existsb negb andb]; rewrite ?id_eqb_refl, ?orb_true_r; reflexivity.
  - destruct (member x (watchlist st)) eqn:E; unfold flags_of;
      cbn [mutate watchlist watched favorites];
      rewrite ?member_app, ?member_drop, ?id_eqb_refl, ?E;
      cbn [member existsb negb andb]; rewrite ?id_eqb_refl, ?orb_true_r; reflexivity.
  - destruct (member x (map entry_id (watched st))) eqn:E; unfold flags_of;
      cbn [mutate watchlist watched favorites];
      rewrite ?map_app, ?entry_ids_drop, ?member_app, ?member_drop, ?id_eqb_refl, ?E;
      cbn [map entry_id member existsb negb andb];
      rewrite ?id_eqb_refl, ?orb_true_r; reflexivity.
Qed.

Lemma flags_after_click_other (b : button) (now : string) (flags : CardFlags)
      (st : ListState) (x y : ContentId) :
  y <> x -> flags_of (mutate now (onClick b flags x) st) y = flags_of st y.
Proof.
  intros Hy. apply flags_of_other.
  destruct b, flags as [[] [] []]; exact Hy.
Qed.

(** X3. A click on a button of a card flips the flag of that button and
    leaves the two other flags of the card; a second click, from the next
    render, brings back the flags of every card. *)
Theorem click_toggles (b : button) (st : ListState) (w : World) (x y : ContentId) :
  let flags := flags_of st x in
  let w0 := with_data (state_value st) w in
  let w1 := snd (run (call (onClick b flags x) (data w0) (user w0)) w0) in
  exists flags1,
    card_flags (data w1) x = Ok flags1
    /\ pressed b flags1 = negb (pressed b flags)
    /\ (forall b', b' <> b -> pressed b' flags1 = pressed b' flags)
    /\ let w2 := snd (run (call (onClick b flags1 x) (data w1) (user w1)) w1) in
       card_flags (data w2) y = Ok (flags_of st y).
Proof.
  cbn zeta.
  set (w1 := snd (run (call (onClick b (flags_of st x) x) _ _)
                      (with_data (state_value st) w))).
  set (st1 := mutate (clock w) (onClick b (flags_of st x) x) st).
  assert (data w1 = state_value st1) as H1 by apply data_after_mutation.
  exists (flags_of st1 x).
  split; [rewrite H1; apply card_flags_state|].
  assert (flags_of st1 x = _) as Hf by apply flags_after_click.
  split; [|split].
  - rewrite Hf. now destruct b.
  - intros b' Hb. rewrite Hf. destruct b, b'; try reflexivity; contradiction.
  - rewrite H1, data_after_call, card_flags_state. f_equal.
    destruct (id_eqb y x) eqn:Eyx.
    + apply id_eqb_eq in Eyx. subst y.
      rewrite flags_after_click, Hf.
      destruct b; cbn [fav inList watchedFlag]; rewrite negb_involutive;
        now destruct (flags_of st x).
    + assert (y <> x) as Hne by (intros ->; now rewrite id_eqb_refl in Eyx).
      rewrite flags_after_click_other by assumption.
      now apply flags_after_click_other.
Qed.

(* ================================================================== *)
(** * Invariants and compositions of the mutations *)

Lemma drop_id_absent (x : ContentId) (ids : list ContentId) :
  ~ In x (drop_id x ids).
Proof.
  unfold drop_id. intros H. apply filter_In in H as [_ H].
  now rewrite id_eqb_refl in H.
Qed.

Lemma NoDup_added (x : ContentId) (ids : list ContentId) :
  NoDup ids -> NoDup (drop_id x ids ++ [x]).
Proof.
  intros H. apply NoDup_app.
  - now apply NoDup_filter.
  - repeat constructor. intros [].
  - intros a Ha [Hx|[]]. subst a. now apply (drop_id_absent x ids).
Qed.

(** X4. The seven mutations keep the lists free of duplicates: when no list
    holds an id twice before a mutation, none does after it. *)
Theorem mutations_keep_lists_duplicate_free (m : mutation) (st : ListState)
        (w : World) :
  no_duplicates st ->
  exists st', state_after m st w = state_value st' /\ no_duplicates st'.
Proof.
  intros (Hw & Hd & Hf).
  exists (mutate (clock w) m st). split; [apply state_after_mutate|].
  unfold no_duplicates.
  destruct m; cbn [mutate watchlist watched favorites];
    rewrite ?map_app, ?entry_ids_drop, ?(proj1 (set_rating_frame _ _ _));
    cbn [map entry_id];
    repeat split;
    auto using NoDup_added; now apply NoDup_filter.
Qed.

Lemma mutations_keep_lists_duplicate_free_witness :
  no_duplicates some_lists
  /\ exists st',
       state_after (AddToWatched (IdStr "7") (Some 9%Z)) some_lists guest_world
       = state_value st'
       /\ no_duplicates st'.
Proof.
  assert (no_duplicates some_lists) as H.
  { unfold no_duplicates, some_lists. cbn.
    repeat split; repeat constructor; cbn; intuition discriminate. }
  split; [exact H|].
  exact (mutations_keep_lists_duplicate_free
           (AddToWatched (IdStr "7") (Some 9%Z)) some_lists guest_world H).
Defined.

(** No effect changes the clock reading, the user or the stores' health. *)
Lemma handle_keeps_environment {B} (e : eff B) (w : World) :
  clock (snd (handle e w)) = clock w
  /\ user (snd (handle e w)) = user w
  /\ storage_writable (snd (handle e w)) = storage_writable w
  /\ storage_readable (snd (handle e w)) = storage_readable w
  /\ online (snd (handle e w)) = online w.
Proof.
  destruct e; cbn;
    repeat match goal with
      | |- context [if ?c then _ else _] => destruct c eqn:?
      | |- context [match lookup_doc ?u ?d with _ => _ end] => destruct (lookup_doc u d)
      end;
    cbn; repeat split; congruence.
Qed.

Lemma run_keeps_environment {A} (p : Prog A) (w : World) :
  clock (snd (run p w)) = clock w
  /\ user (snd (run p w)) = user w
  /\ storage_writable (snd (run p w)) = storage_writable w
  /\ storage_readable (snd (run p w)) = storage_readable w
  /\ online (snd (run p w)) = online w.
Proof.
  revert w. induction p as [a|e|T e k IH]; intros w; cbn [run];
    try (now repeat split).
  destruct (handle_keeps_environment e w) as (H1 & H2 & H3 & H4 & H5).
  destruct (handle e w) as [r w']. cbn [snd] in *.
  destruct (IH r w') as (K1 & K2 & K3 & K4 & K5).
  repeat split; congruence.
Qed.

(** X5. Two mutations called from the same render: the second computes its
    new lists from the lists that render saw, so the state after both is the
    state the second call alone would give and the change of the first call
    is gone. *)
Theorem second_call_of_a_render_wins (m1 m2 : mutation) (st : ListState)
        (w : World) :
  let w0 := with_data (state_value st) w in
  let w1 := snd (run (call m1 (data w0) (user w0)) w0) in
  let w2 := snd (run (call m2 (data w0) (user w0)) w1) in
  data w1 = state_value (mutate (clock w) m1 st)
  /\ data w2 = state_value (mutate (clock w) m2 st).
Proof.
  cbn zeta. split; [apply data_after_mutation|].
  set (w1 := snd (run (call m1 _ _) (with_data (state_value st) w))).
  assert (clock w1 = clock w) as Hc
      by apply (run_keeps_environment _ (with_data (state_value st) w)).
  rewrite <- Hc. apply data_after_call.
Qed.

(** ** A guest's session *)

Lemma synchronous_bind {A B} (p : Prog A) (f : A -> Prog B) :
  synchronous p -> (forall a, synchronous (f a)) -> synchronous (bind p f).
Proof.
  intros Hp Hf. induction Hp as [a|e|T e k Ha _ IH]; cbn [bind]; auto.
  - constructor.
  - constructor; auto.
Qed.

Lemma synchronous_perform {B} (e : eff B) :
  is_async e = false -> synchronous (perform e).
Proof.
  intros H. constructor; [exact H|]. intros [b|x]; constructor.
Qed.

Lemma synchronous_lift {A} (r : Res A) : synchronous (lift r).
Proof. destruct r; constructor. Qed.

Lemma synchronous_guest_call (m : mutation) (d : value) :
  synchronous (call m d None).
Proof.
  destruct m; cbn [call];
    unfold addToWatchlist, removeFromWatchlist, addToWatched, removeFromWatched,
      updateWatchedRating, addToFavorites, removeFromFavorites, saveData;
    repeat (apply synchronous_bind; [|intros ?]);
    try apply synchronous_lift; now apply synchronous_perform.
Qed.

(** A function without [await] runs to its end when it is started. *)
Lemma advance_synchronous (p : Prog unit) (w : World) :
  synchronous p -> advance p w = (Finished (fst (run p w)), snd (run p w)).
Proof.
  intros Hp. revert w.
  induction Hp as [[]|e|T e k Ha _ IH]; intros w; cbn [advance run]; try reflexivity.
  rewrite Ha. destruct (handle e w) as [r w']. apply IH.
Qed.

Lemma run_guest_call (m : mutation) (st : ListState) (w : World) :
  storage_writable w = true ->
  run (call m (state_value st) None) w
  = (Ok tt,
     with_toast (confirmation m)
       (with_localStorage
          (setItem_in storage_key (print (state_value (mutate (clock w) m st)))
                      (localStorage w))
          (with_data (state_value (mutate (clock w) m st)) w))).
Proof.
  intros Hw. rewrite run_call, newData_state, run_bind, run_saveData_guest, Hw.
  now rewrite run_perform.
Qed.

(** What the store holds after the calls [ms]. *)
Lemma guest_calls (ms : list mutation) (st : ListState) (w : World) :
  user w = None -> storage_writable w = true -> data w = state_value st ->
  let s := exec (mkSystem w [] []) (map Call ms) in
  let st' := fold_left (fun a m => mutate (clock w) m a) ms st in
  data (world s) = state_value st'
  /\ getItem_in storage_key (localStorage (world s))
     = match ms with
       | [] => getItem_in storage_key (localStorage w)
       | _ :: _ => Some (print (state_value st'))
       end
  /\ toasts (world s) = toasts w ++ map confirmation ms
  /\ storage_readable (world s) = storage_readable w
  /\ user (world s) = None
  /\ pending s = [] /\ rejected s = [].
Proof.
  revert st w. induction ms as [|m ms IH]; intros st w Hu Hw Hd; cbn zeta.
  - cbn. rewrite List.app_nil_r. now repeat split.
  - cbn [map exec fold_left]. fold (exec (step (mkSystem w [] []) (Call m)) (map Call ms)).
    assert (step (mkSystem w [] []) (Call m)
            = mkSystem
                (with_toast (confirmation m)
                   (with_localStorage
                      (setItem_in storage_key
                         (print (state_value (mutate (clock w) m st))) (localStorage w))
                      (with_data (state_value (mutate (clock w) m st)) w)))
                [] []) as ->.
    { cbn [step world pending rejected]. unfold start. cbn [world pending rejected].
      rewrite Hu, Hd, advance_synchronous by apply synchronous_guest_call.
      now rewrite run_guest_call. }
    set (w1 := with_toast _ _).
    destruct (IH (mutate (clock w) m st) w1 Hu Hw eq_refl)
      as (H1 & H2 & H3 & H4 & H5 & H6 & H7).
    change (clock w1) with (clock w) in *.
    repeat split; try assumption.
    + rewrite H2. destruct ms; [|reflexivity]. cbn [fold_left]. apply getItem_setItem.
    + rewrite H3. cbn [map]. unfold w1. cbn. now rewrite <- app_assoc.
Qed.

(** X6. A guest whose storage works calls any mutations, one per render:
    afterwards the state holds the lists built by all of them in order,
    nothing was rejected, and [localStorage] holds exactly these lists, so
    that the guest load brings them back whatever the state holds by
    then. *)
Theorem guest_session_is_persisted (m : mutation) (ms : list mutation)
        (st : ListState) (w : World) (stale : value) :
  user w = None ->
  storage_writable w = true ->
  storage_readable w = true ->
  data w = state_value st ->
  let s := exec (mkSystem w [] []) (map Call (m :: ms)) in
  let st' := fold_left (fun a m => mutate (clock w) m a) (m :: ms) st in
  data (world s) = state_value st'
  /\ rejected s = []
  /\ toasts (world s) = toasts w ++ map confirmation (m :: ms)
  /\ data (snd (run (effect (user (world s)) true) (with_data stale (world s))))
     = state_value st'.
Proof.
  intros Hu Hw Hr Hd. cbn zeta.
  destruct (guest_calls (m :: ms) st w Hu Hw Hd) as (H1 & H2 & H3 & H4 & H5 & _ & H7).
  cbn zeta in *.
  set (s := exec (mkSystem w [] []) (map Call (m :: ms))) in *.
  set (st' := fold_left _ (m :: ms) st) in *.
  repeat split; try assumption.
  rewrite H5. cbn [effect negb].
  rewrite (run_loadLocalData_parsed (print (state_value st')) (state_value st')).
  - reflexivity.
  - change (storage_readable (with_data stale (world s))) with (storage_readable (world s)).
    congruence.
  - exact H2.
  - apply print_not_empty.
  - apply JSON_parse_print, storable_state.
Qed.

Lemma guest_session_is_persisted_witness :
  data (snd (run (effect None true)
                 (with_data VNull
                    (world (exec (mkSystem guest_world [] [])
                                 (map Call [AddToFavorites (IdStr "42");
                                            AddToWatched (IdNum 7) None;
                                            RemoveFromFavorites (IdStr "42")]))))))
  = state_value (mkListState [] [mkEntry (IdNum 7) 0 "2024-05-01"] []).
Proof.
  exact (proj2 (proj2 (proj2
           (guest_session_is_persisted
              (AddToFavorites (IdStr "42"))
              [AddToWatched (IdNum 7) None; RemoveFromFavorites (IdStr "42")]
              (mkListState [] [] []) guest_world VNull
              eq_refl eq_refl eq_refl eq_refl)))).
Defined.

(** ** A signed-in user's mutation that reaches Firestore *)

Lemma lookup_store_doc (uid : string) (d : fields) (docs : list (string * fields)) :
  lookup_doc uid (store_doc uid d docs) = Some d.
Proof.
  induction docs as [|[k d'] docs IH]; cbn [store_doc lookup_doc].
  - now rewrite String.eqb_refl.
  - destruct (String.eqb uid k) eqn:E; cbn [lookup_doc]; now rewrite E.
Qed.

(** The document written by [updateDoc] with a ListState reads back as
    that ListState. *)
Lemma lists_of_written_doc (st : ListState) (old : fields) :
  lists_of_doc (write_fields (spread (state_value st)) old) = state_value st.
Proof.
  unfold lists_of_doc, field, write_fields, state_value.
  cbn [spread fold_left fst snd].
  rewrite !lookup_set_prop. reflexivity.
Qed.

(** X7. When the [updateDoc] of a signed-in user's mutation succeeds,
    nothing is written to [localStorage], the only toast is the
    confirmation, [updateDoc] was called once with the three lists, and a
    load of the user's document afterwards gives the new ListState back. *)
Theorem remote_success_is_durable (m : mutation) (st : ListState) (w : World)
        (uid : string) (old : fields) (stale : value) :
  user w = Some uid ->
  online w = true ->
  lookup_doc uid (users w) = Some old ->
  let w0 := with_data (state_value st) w in
  let new := state_value (mutate (clock w) m st) in
  exists w',
    run (call m (data w0) (user w0)) w0 = (Ok tt, w')
    /\ data w' = new
    /\ localStorage w' = localStorage w
    /\ toasts w' = toasts w ++ [confirmation m]
    /\ requests w' = requests w ++ [ReqUpdateDoc uid (spread new)]
    /\ data (snd (run (loadUserData (Some uid)) (with_data stale w'))) = new.
Proof.
  intros Huser Hon Hdoc. cbn zeta.
  rewrite run_mutation, run_bind, Huser.
  rewrite (run_saveData_remote uid _ old) by assumption.
  rewrite run_perform.
  eexists. split; [reflexivity|].
  split; [reflexivity|]. split; [reflexivity|]. split; [reflexivity|].
  split; [reflexivity|].
  match goal with
  | |- data (snd (run _ ?w1)) = _ =>
      destruct (loadUserData_fills_missing_lists uid
                  (write_fields (spread (state_value (mutate (clock w) m st))) old) w1)
        as (w2 & Hrun & Hdata & _)
  end.
  - exact Hon.
  - cbn. apply lookup_store_doc.
  - rewrite Hrun. cbn [snd]. rewrite Hdata. apply lists_of_written_doc.
Qed.

Lemma remote_success_is_durable_witness :
  exists w',
    run (call (AddToWatchlist (IdNum 27205))
              (state_value lists_of_A) (Some "A"))
        (with_data (state_value lists_of_A)
           (mkWorld empty_lists false (Some "A") true [] [] [] true true
                    [("A", doc_of_A)] true [] noon))
    = (Ok tt, w')
    /\ localStorage w' = [].
Proof.
  destruct (remote_success_is_durable
              (AddToWatchlist (IdNum 27205)) lists_of_A
              (mkWorld empty_lists false (Some "A") true [] [] [] true true
                       [("A", doc_of_A)] true [] noon)
              "A" doc_of_A VNull eq_refl eq_refl eq_refl)
    as (w' & Hrun & _ & Hstore & _).
  exists w'. split; [exact Hrun | exact Hstore].
Defined.

(** ** The end of a load *)



Lemma load_request_not_set {B} (e : eff B) :
  is_load_request e = true -> is_set_loading e = false.
Proof. now destruct e. Qed.




















(** The load of user "A" finds no document; the connection drops before
    its [setDoc] is answered, so the [setDoc] fails: the load falls back to
    the local data, shows the offline toast and ends with [loading]
    false. *)
Lemma load_with_failing_setDoc :
  let s := exec (mount [] [] true noon)
                [AuthChanged (Some "A"); Completes 0; Network false; Completes 0] in
  loading (world s) = false
  /\ List.length (pending s) = 0
  /\ rejected s = []
  /\ toasts (world s) = [offline_toast]
  /\ requests (world s) = [ReqGetDoc "A"; ReqSetDocMerge "A" empty_fields].
Proof. cbn zeta. repeat split. Qed.
(** ** A stored [null] *)

Lemma JSON_parse_storable_head (text : string) : JSON_parse text <> Ok VUndefined.
Proof.
  unfold JSON_parse.
  destruct (parse_value (2 * String.length text + 2) text) as [[v rest]|] eqn:E;
    [|discriminate].
  destruct (skip_ws rest); [|discriminate].
  intros H. injection H as ->.
  destruct (2 * String.length text + 2) as [|f]; [discriminate|].
  cbn [parse_value] in E.
  destruct (skip_ws text) as [|c s]; [discriminate|].
  repeat match type of E with
    | (if ?b then _ else _) = _ => destruct b
    | match ?x with _ => _ end = _ => destruct x eqn:?
    | option_map _ ?x = _ => destruct x as [[? ?]|] eqn:?; cbn [option_map] in E
    end; try discriminate E.
  - unfold option_map in E. destruct (expect "ull" s); discriminate E.
  - unfold option_map in E. destruct (expect "rue" s); discriminate E.
  - unfold option_map in E. destruct (expect "alse" s); discriminate E.
  - unfold parse_number in E.
    destruct (starts_with "-" (String c s));
      destruct (parse_nat _) as [[? ?]|]; discriminate E.
Qed.

Lemma returned_lists_throws (d : value) (e : exn) :
  returned_lists d = Throw e -> d = VNull \/ d = VUndefined.
Proof.
  destruct d; cbn; try discriminate; auto.
  unfold returned_lists, get.
  destruct (lookup "watchlist" props), (lookup "watched" props),
    (lookup "favorites" props); discriminate.
Qed.

(** X10. The guest load makes the hook unable to hand out its lists in one
    case only: when the stored text parses to [null].  Every other stored
    text, readable or not, parseable or not, leaves the three properties
    readable (possibly [undefined]). *)
Theorem load_breaks_the_hook_only_on_null (w : World) :
  (exists lists, returned_lists (data w) = Ok lists) ->
  storage_readable w = true ->
  let w' := snd (run loadLocalData w) in
  returned_lists (data w') = Throw TypeError
  <-> exists text, getItem_in storage_key (localStorage w) = Some text
                   /\ JSON_parse text = Ok VNull.
Proof.
  intros [lists Hok] Hread. cbn zeta. split.
  - intros Hthrow.
    destruct (run_loadLocalData_cases w) as (w' & Hrun & _ & [Hsame|(text & Hitem & Hparse)]);
      rewrite Hrun in Hthrow; cbn [snd] in Hthrow.
    + rewrite Hsame in Hthrow. congruence.
    + exists text. split; [exact Hitem|].
      destruct (returned_lists_throws _ _ Hthrow) as [E|E]; rewrite E in Hparse.
      * exact Hparse.
      * now apply JSON_parse_storable_head in Hparse.
  - intros (text & Hitem & Hparse).
    assert (String.eqb text "" = false) as Hne.
    { destruct text; [discriminate Hparse | reflexivity]. }
    rewrite (run_loadLocalData_parsed text VNull w Hread Hitem Hne Hparse).
    reflexivity.
Qed.

Lemma load_breaks_the_hook_only_on_null_witness :
  returned_lists
    (data (snd (run loadLocalData
                    (with_localStorage [(storage_key, "null")] guest_world))))
  = Throw TypeError.
Proof.
  apply (load_breaks_the_hook_only_on_null
           (with_localStorage [(storage_key, "null")] guest_world)).
  - eexists. reflexivity.
  - reflexivity.
  - exists "null". split; reflexivity.
Defined.

(* ================================================================== *)
(** * The toast store *)

Lemma has_timeout_In (k : string) (timeouts : list string) :
  has_timeout k timeouts = true <-> In k timeouts.
Proof.
  unfold has_timeout. rewrite existsb_exists. split.
  - intros (x & Hx & E). apply String.eqb_eq in E. now subst.
  - intros H. exists k. split; [exact H | apply String.eqb_refl].
Qed.

Lemma addToRemoveQueue_NoDup (k : string) (timeouts : list string) :
  NoDup timeouts -> NoDup (addToRemoveQueue k timeouts).
Proof.
  intros H. unfold addToRemoveQueue.
  destruct (has_timeout k timeouts) eqn:E; [exact H|].
  apply NoDup_app; [exact H | repeat constructor; intros [] |].
  intros a Ha [<-|[]]. apply has_timeout_In in Ha. congruence.
Qed.

Lemma queue_all_NoDup {P} (state : list (Shown P)) (timeouts : list string) :
  NoDup timeouts ->
  NoDup (fold_left (fun tm t => addToRemoveQueue (toast_id t) tm) state timeouts).
Proof.
  revert timeouts. induction state as [|t state IH]; intros timeouts H; [exact H|].
  cbn [fold_left]. apply IH. now apply addToRemoveQueue_NoDup.
Qed.

Lemma toast_step_invariants {P} (s : ToastStore P) (ev : toast_event P) :
  List.length (memoryState s) <= TOAST_LIMIT -> NoDup (toastTimeouts s) ->
  List.length (memoryState (toast_step s ev)) <= TOAST_LIMIT
  /\ NoDup (toastTimeouts (toast_step s ev)).
Proof.
  intros Hlen Hnd. destruct ev as [props|id props|[id|]|id]; cbn [toast_step].
  - unfold toast, genId, dispatch. cbn [reducer memoryState toastTimeouts].
    split; [apply firstn_le_length | exact Hnd].
  - unfold dispatch. cbn. now rewrite length_map.
  - unfold dispatch. cbn [reducer memoryState toastTimeouts]. rewrite length_map.
    split; [exact Hlen|].
    destruct (negb (String.eqb id ""));
      auto using addToRemoveQueue_NoDup, queue_all_NoDup.
  - unfold dispatch. cbn [reducer memoryState toastTimeouts]. rewrite length_map.
    split; [exact Hlen | now apply queue_all_NoDup].
  - destruct (has_timeout id (toastTimeouts s)); [|now split].
    unfold timer_callback, dispatch. cbn [reducer memoryState toastTimeouts]. split.
    + pose proof (filter_length_le
                    (fun t : Shown P => negb (String.eqb (toast_id t) id))
                    (memoryState s)). lia.
    + now apply NoDup_filter.
Qed.

(** X11. Whatever is called on the toast store (toast, update, dismiss) and
    whichever timers fire, the store never holds more than TOAST_LIMIT
    toasts and never has two pending removal timers for one toast id. *)
Theorem toast_store_invariants {P} (evs : list (toast_event P)) :
  List.length (memoryState (toast_run empty_store evs)) <= TOAST_LIMIT
  /\ NoDup (toastTimeouts (toast_run empty_store evs)).
Proof.
  unfold toast_run.
  assert (forall s : ToastStore P,
             List.length (memoryState s) <= TOAST_LIMIT -> NoDup (toastTimeouts s) ->
             List.length (memoryState (fold_left toast_step evs s)) <= TOAST_LIMIT
             /\ NoDup (toastTimeouts (fold_left toast_step evs s))) as H.
  { induction evs as [|ev evs IH]; intros s Hlen Hnd; [now split|].
    cbn [fold_left]. destruct (toast_step_invariants s ev Hlen Hnd). now apply IH. }
  apply H; cbn; [lia | constructor].
Qed.

Lemma firstn_app_firstn {A} (n m : nat) (a b : list A) :
  n <= m -> firstn n (a ++ firstn m b) = firstn n (a ++ b).
Proof.
  revert n. induction a as [|x a IH]; intros n Hn.
  - cbn [app]. rewrite firstn_firstn. f_equal. lia.
  - destruct n as [|n]; [reflexivity|]. cbn [app firstn]. f_equal. apply IH. lia.
Qed.

Lemma Forall_firstn {A} (Q : A -> Prop) (n : nat) (l : list A) :
  Forall Q l -> Forall Q (firstn n l).
Proof.
  intros H. revert n. induction H as [|x l Hx _ IH]; intros [|n]; cbn [firstn];
    constructor; auto.
Qed.

Lemma toasts_after_calls {P} (log : list P) (s : ToastStore P) :
  List.length (memoryState s) <= TOAST_LIMIT ->
  map toast_props (memoryState (toast_run s (map CallToast log)))
  = firstn TOAST_LIMIT (rev log ++ map toast_props (memoryState s))
  /\ (Forall (fun t => toast_open t = true) (memoryState s) ->
      Forall (fun t => toast_open t = true)
             (memoryState (toast_run s (map CallToast log)))).
Proof.
  revert s. induction log as [|p log IH]; intros s Hlen.
  - cbn [map toast_run fold_left rev app]. split; [|auto].
    symmetry. apply firstn_all2. now rewrite length_map.
  - cbn [map toast_run fold_left]. fold (toast_run (toast_step s (CallToast p)) (map CallToast log)).
    assert (List.length (memoryState (toast_step s (CallToast p))) <= TOAST_LIMIT) as Hl.
    { cbn [toast_step]. unfold toast, genId, dispatch.
      cbn [reducer memoryState toastTimeouts]. apply firstn_le_length. }
    destruct (IH (toast_step s (CallToast p)) Hl) as [IH1 IH2]. split.
    + rewrite IH1. cbn [toast_step]. unfold toast, genId, dispatch.
      cbn [reducer memoryState toastTimeouts count].
      cbn [rev]. rewrite <- app_assoc. cbn [app].
      unfold TOAST_LIMIT. rewrite <- firstn_map. cbn [map toast_props].
      now apply firstn_app_firstn.
    + intros Hopen. apply IH2. cbn [toast_step]. unfold toast, genId, dispatch.
      cbn [reducer memoryState toastTimeouts count].
      apply Forall_firstn. now constructor.
Qed.

(** X12. After any number of [toast(...)] calls on the store, starting
    with an empty one, the store shows the props of the last TOAST_LIMIT
    calls, the newest first, all open; an older toast is dropped although
    it was never dismissed. *)
Theorem newest_toasts_are_shown {P} (log : list P) :
  let s := toast_run empty_store (map CallToast log) in
  map toast_props (memoryState s) = firstn TOAST_LIMIT (rev log)
  /\ Forall (fun t => toast_open t = true) (memoryState s).
Proof.
  cbn zeta.
  destruct (toasts_after_calls log (@empty_store P)) as [H1 H2]; [cbn; lia|].
  split.
  - rewrite H1. cbn [empty_store memoryState map]. now rewrite List.app_nil_r.
  - apply H2. constructor.
Qed.

(** ** The ids of the toasts *)

Lemma print_N_inj (a b : N) : print_N a = print_N b -> a = b.
Proof.
  intros H.
  pose proof (parse_nat_print a "" eq_refl) as Ha.
  pose proof (parse_nat_print b "" eq_refl) as Hb.
  rewrite H, Hb in Ha. now injection Ha.
Qed.

Lemma NoDup_firstn {A} (n : nat) (l : list A) : NoDup l -> NoDup (firstn n l).
Proof.
  intros H. rewrite <- (firstn_skipn n l) in H. now apply NoDup_app_remove_r in H.
Qed.

Lemma NoDup_map_filter {A B} (f : A -> B) (keep : A -> bool) (l : list A) :
  NoDup (map f l) -> NoDup (map f (filter keep l)).
Proof.
  induction l as [|x l IH]; cbn [map filter]; intros H; [constructor|].
  inversion H as [|? ? Hx Hl]; subst.
  destruct (keep x); cbn [map]; [|auto].
  constructor; [|auto]. intros Hin. apply Hx.
  apply in_map_iff in Hin as (y & Hy & Hin). apply filter_In in Hin as [Hin _].
  apply in_map_iff. now exists y.
Qed.

Lemma toast_step_ids {P} (s : ToastStore P) (ev : toast_event P) (n : nat) :
  let called := match ev with CallToast _ => 1 | _ => 0 end in
  count s = N.of_nat n ->
  (N.of_nat (n + called) < MAX_SAFE_INTEGER)%N ->
  ids_issued s -> NoDup (map toast_id (memoryState s)) ->
  count (toast_step s ev) = N.of_nat (n + called)
  /\ ids_issued (toast_step s ev)
  /\ NoDup (map toast_id (memoryState (toast_step s ev))).
Proof.
  cbn zeta. intros Hc Hn Hi Hnd. unfold ids_issued in *.
  destruct ev as [props|id props|toastId|id]; cbn [toast_step].
  - assert (((count s + 1) mod MAX_SAFE_INTEGER)%N = (count s + 1)%N) as Hmod.
    { apply N.mod_small. lia. }
    unfold toast, genId, dispatch. cbn [reducer count memoryState toastTimeouts].
    rewrite Hmod. split; [lia|]. split.
    + apply Forall_firstn. constructor.
      * exists (count s + 1)%N. split; [reflexivity | lia].
      * eapply Forall_impl; [|exact Hi]. cbn beta.
        intros t (k & E & Hk). exists k. split; [exact E | lia].
    + rewrite <- firstn_map. apply NoDup_firstn. cbn [map toast_id].
      constructor; [|exact Hnd].
      intros Hin. apply in_map_iff in Hin as (t & E & Hin).
      rewrite Forall_forall in Hi. destruct (Hi t Hin) as (k & Ek & Hk).
      rewrite Ek in E. apply print_N_inj in E. lia.
  - unfold dispatch. cbn [reducer count memoryState toastTimeouts].
    rewrite Nat.add_0_r.
    assert (map toast_id
              (map (fun t : Shown P =>
                      if String.eqb (toast_id t) id then patched props t else t)
                   (memoryState s))
            = map toast_id (memoryState s)) as Hids.
    { rewrite map_map. apply map_ext. intros t.
      now destruct (String.eqb (toast_id t) id). }
    split; [exact Hc|]. split; [|now rewrite Hids].
    apply Forall_map. eapply Forall_impl; [|exact Hi]. cbn beta.
    intros t H. now destruct (String.eqb (toast_id t) id).
  - unfold dispatch. cbn [reducer count memoryState toastTimeouts].
    rewrite Nat.add_0_r.
    assert (map toast_id
              (map (fun t : Shown P =>
                      match toastId with
                      | Some id => if String.eqb (toast_id t) id then closed t else t
                      | None => closed t
                      end) (memoryState s))
            = map toast_id (memoryState s)) as Hids.
    { rewrite map_map. apply map_ext. intros t.
      destruct toastId as [id|]; [|reflexivity].
      now destruct (String.eqb (toast_id t) id). }
    split; [exact Hc|]. split; [|now rewrite Hids].
    apply Forall_map. eapply Forall_impl; [|exact Hi]. cbn beta.
    intros t H. destruct toastId as [id|]; [|exact H].
    now destruct (String.eqb (toast_id t) id).
  - rewrite Nat.add_0_r.
    destruct (has_timeout id (toastTimeouts s)); [|now repeat split].
    unfold timer_callback, dispatch. cbn [reducer count memoryState toastTimeouts].
    split; [exact Hc|]. split.
    + apply Forall_forall. intros t Ht. apply filter_In in Ht as [Ht _].
      rewrite Forall_forall in Hi. now apply Hi.
    + now apply NoDup_map_filter.
Qed.

Lemma toast_run_ids {P} (evs : list (toast_event P)) (s : ToastStore P) (n : nat) :
  count s = N.of_nat n ->
  (N.of_nat (n + toast_calls evs) < MAX_SAFE_INTEGER)%N ->
  ids_issued s -> NoDup (map toast_id (memoryState s)) ->
  NoDup (map toast_id (memoryState (toast_run s evs))).
Proof.
  revert s n. induction evs as [|ev evs IH]; intros s n Hc Hn Hi Hnd; [exact Hnd|].
  cbn [toast_run fold_left]. fold (toast_run (toast_step s ev) evs).
  assert (toast_calls (ev :: evs)
          = match ev with CallToast _ => 1 | _ => 0 end + toast_calls evs) as Hcalls.
  { unfold toast_calls. cbn [filter]. now destruct ev. }
  rewrite Hcalls in Hn.
  destruct (toast_step_ids s ev n Hc) as (Hc' & Hi' & Hnd'); try assumption.
  { cbn zeta. lia. }
  apply (IH _ _ Hc' ltac:(lia) Hi' Hnd').
Qed.

(** X13. As long as [toast(...)] has been called fewer than
    MAX_SAFE_INTEGER times, the toasts in the store have pairwise different
    ids, whatever else was called and whichever timers fired: an update, a
    dismiss or a removal by id hits one toast at most. *)
Theorem toast_ids_are_unique {P} (evs : list (toast_event P)) :
  (N.of_nat (toast_calls evs) < MAX_SAFE_INTEGER)%N ->
  NoDup (map toast_id (memoryState (toast_run empty_store evs))).
Proof.
  intros H. apply (toast_run_ids evs empty_store 0).
  - reflexivity.
  - exact H.
  - constructor.
  - constructor.
Qed.

Lemma toast_ids_are_unique_witness :
  (N.of_nat (toast_calls [CallToast offline_toast; CallDismiss None;
                          CallToast saved_locally_toast; TimerFires "1"])
   < MAX_SAFE_INTEGER)%N
  /\ NoDup (map toast_id
              (memoryState
                 (toast_run empty_store
                    [CallToast offline_toast; CallDismiss None;
                     CallToast saved_locally_toast; TimerFires "1"]))).
Proof.
  assert (N.of_nat (toast_calls [CallToast offline_toast; CallDismiss None;
                                 CallToast saved_locally_toast; TimerFires "1"])
          < MAX_SAFE_INTEGER)%N as H by reflexivity.
  split; [exact H|].
  exact (toast_ids_are_unique _ H).
Defined.

(** ** Dismissing a toast *)

Lemma has_timeout_queued (id : string) (timeouts : list string) :
  has_timeout id (addToRemoveQueue id timeouts) = true.
Proof.
  unfold addToRemoveQueue. destruct (has_timeout id timeouts) eqn:E; [exact E|].
  apply has_timeout_In, in_or_app. right. now left.
Qed.

Lemma has_timeout_deleted (id : string) (timeouts : list string) :
  has_timeout id (filter (fun k => negb (String.eqb k id)) timeouts) = false.
Proof.
  destruct (has_timeout id (filter _ timeouts)) eqn:E; [|reflexivity].
  apply has_timeout_In, filter_In in E as [_ E].
  now rewrite String.eqb_refl in E.
Qed.

(** X14. [dismiss(id)] closes the toast [id] and starts its removal timer;
    calling it again starts no second timer; when the timer fires, the
    toast [id] is gone, its timer entry is deleted, and the other toasts
    are exactly as they were before the dismiss. *)
Theorem dismissed_toast_is_removed {P} (s : ToastStore P) (id : string) :
  id <> "" ->
  let s1 := toast_step s (CallDismiss (Some id)) in
  let s2 := toast_step s1 (TimerFires id) in
  memoryState s1
  = map (fun t => if String.eqb (toast_id t) id then closed t else t) (memoryState s)
  /\ has_timeout id (toastTimeouts s1) = true
  /\ toast_step s1 (CallDismiss (Some id)) = s1
  /\ memoryState s2
     = filter (fun t => negb (String.eqb (toast_id t) id)) (memoryState s)
  /\ has_timeout id (toastTimeouts s2) = false.
Proof.
  intros Hid. apply String.eqb_neq in Hid. cbn zeta.
  cbn [toast_step].
  assert (dispatch (DISMISS_TOAST (Some id)) s
          = mkToastStore (count s)
              (map (fun t => if String.eqb (toast_id t) id then closed t else t)
                   (memoryState s))
              (addToRemoveQueue id (toastTimeouts s))) as E1.
  { unfold dispatch. cbn [reducer]. rewrite Hid. reflexivity. }
  rewrite E1. cbn [memoryState toastTimeouts].
  split; [reflexivity|]. split; [apply has_timeout_queued|]. split.
  - unfold dispatch. cbn [reducer memoryState toastTimeouts count]. rewrite Hid.
    cbn [negb]. f_equal.
    + rewrite map_map. apply map_ext. intros t.
      destruct (String.eqb (toast_id t) id) eqn:E; cbn [closed toast_id]; now rewrite E.
    + unfold addToRemoveQueue at 1. now rewrite has_timeout_queued.
  - rewrite has_timeout_queued. unfold timer_callback, dispatch.
    cbn [reducer memoryState toastTimeouts count]. split; [|apply has_timeout_deleted].
    clear E1. induction (memoryState s) as [|t l IH]; [reflexivity|].
    cbn [map filter].
    destruct (String.eqb (toast_id t) id) eqn:E; cbn [closed toast_id]; rewrite E;
      cbn [negb]; now rewrite IH.
Qed.

Lemma dismissed_toast_is_removed_witness :
  "2"%string <> ""%string
  /\ map toast_props
         (memoryState
            (toast_step
               (toast_step
                  (toast_run empty_store
                     [CallToast offline_toast; CallToast saved_locally_toast])
                  (CallDismiss (Some "2")))
               (TimerFires "2")))
     = [offline_toast].
Proof.
  assert ("2"%string <> ""%string) as H by discriminate.
  split; [exact H|].
  rewrite (proj1 (proj2 (proj2 (proj2
             (dismissed_toast_is_removed
                (toast_run empty_store
                   [CallToast offline_toast; CallToast saved_locally_toast])
                "2" H))))).
  reflexivity.
Defined.

(* ================================================================== *)
(** * [truncateText] *)

Lemma trimStart_split (s : js_string) :
  exists a, s = a ++ trimStart s /\ Forall white a
            /\ forall c, hd_error (trimStart s) = Some c -> is_white_space c = false.
Proof.
  induction s as [|c s (a & E & Ha & Hh)]; cbn [trimStart].
  - exists []. repeat split; [constructor | discriminate].
  - destruct (is_white_space c) eqn:Hc.
    + exists (c :: a). cbn [app]. split; [now f_equal|]. split; [|exact Hh].
      now constructor.
    + exists []. split; [reflexivity|]. split; [constructor|].
      cbn [hd_error]. intros c' [= <-]. exact Hc.
Qed.

Lemma trim_split (s : js_string) :
  exists a b, s = a ++ trim s ++ b /\ Forall white a /\ Forall white b
              /\ (forall c, hd_error (trim s) = Some c -> is_white_space c = false)
              /\ (forall c, hd_error (rev (trim s)) = Some c -> is_white_space c = false).
Proof.
  destruct (trimStart_split s) as (a & Ea & Ha & Hhd).
  destruct (trimStart_split (rev (trimStart s))) as (b & Eb & Hb & Hlast).
  assert (trimStart s = trim s ++ rev b) as Es.
  { unfold trim, trimEnd. rewrite <- rev_app_distr, <- Eb. now rewrite rev_involutive. }
  exists a, (rev b). split; [now rewrite <- Es|]. split; [exact Ha|].
  split; [now apply Forall_rev|]. split.
  - intros c Hc. apply Hhd. rewrite Es.
    destruct (trim s); [discriminate | exact Hc].
  - unfold trim, trimEnd. rewrite rev_involutive. exact Hlast.
Qed.

Lemma trim_length (s : js_string) : List.length (trim s) <= List.length s.
Proof.
  destruct (trim_split s) as (a & b & E & _).
  rewrite E at 2. rewrite !length_app. lia.
Qed.

(** X15. The text that [truncateText] returns has at most three code
    units more than the shorter of the text and [maxLength]: a card shows
    at most [maxLength + 3] code units of an overview. *)
Theorem truncateText_length (text : js_string) (maxLength : nat) :
  List.length (truncateText text maxLength)
  <= Nat.min (List.length text) maxLength + 3.
Proof.
  unfold truncateText.
  destruct (Nat.eqb_spec (List.length text) 0) as [E|E]; [cbn; lia|].
  destruct (Nat.leb_spec (List.length text) maxLength) as [H|H]; [lia|].
  rewrite length_app. pose proof (trim_length (firstn maxLength text)) as Ht.
  rewrite length_firstn in Ht. cbn [ellipsis List.length]. lia.
Qed.

(** X16. A text longer than [maxLength] is shown as a part of its first
    [maxLength] code units followed by three dots: the part is what is left
    of them without the white space at their two ends, so it neither starts
    nor ends with white space. *)
Theorem truncateText_cut (text : js_string) (maxLength : nat) :
  maxLength < List.length text ->
  exists a kept b,
    firstn maxLength text = a ++ kept ++ b
    /\ Forall white a /\ Forall white b
    /\ (forall c, hd_error kept = Some c -> is_white_space c = false)
    /\ (forall c, hd_error (rev kept) = Some c -> is_white_space c = false)
    /\ truncateText text maxLength = kept ++ ellipsis.
Proof.
  intros H. unfold truncateText.
  destruct (Nat.eqb_spec (List.length text) 0) as [E|_]; [lia|].
  destruct (Nat.leb_spec (List.length text) maxLength) as [H'|_]; [lia|].
  destruct (trim_split (firstn maxLength text)) as (a & b & E & Ha & Hb & Hh & Hl).
  exists a, (trim (firstn maxLength text)), b. now repeat split.
Qed.

Lemma truncateText_cut_witness :
  4 < List.length [32; 97; 98; 32; 99; 100]%N
  /\ exists a kept b,
       firstn 4 [32; 97; 98; 32; 99; 100]%N = a ++ kept ++ b
       /\ Forall white a /\ Forall white b
       /\ (forall c, hd_error kept = Some c -> is_white_space c = false)
       /\ (forall c, hd_error (rev kept) = Some c -> is_white_space c = false)
       /\ truncateText [32; 97; 98; 32; 99; 100]%N 4 = kept ++ ellipsis.
Proof.
  assert (4 < List.length [32; 97; 98; 32; 99; 100]%N) as H by (cbn; lia).
  split; [exact H|].
  exact (truncateText_cut _ 4 H).
Defined.

(* ================================================================== *)
(** * The list pages *)

Section ListPageFacts.
Import ListPage.

Lemma cleanup_ignored (rs : list Run) : older_ignored rs -> Forall ignored (cleanup rs).
Proof.
  destruct rs as [|r older]; cbn [cleanup older_ignored]; intros H; constructor.
  - reflexivity.
  - exact H.
Qed.

Lemma cleanup_length (rs : list Run) : List.length (cleanup rs) = List.length rs.
Proof. now destruct rs. Qed.

Lemma settle_length (k : nat) (rs : list Run) :
  List.length (settle k rs) = List.length rs.
Proof.
  induction rs as [|r older IH]; [reflexivity|]. cbn [settle].
  destruct (Nat.eqb k (List.length older)); cbn [List.length]; now rewrite ?IH.
Qed.

Lemma settle_ignored (k : nat) (rs : list Run) :
  Forall ignored rs -> Forall ignored (settle k rs).
Proof.
  induction 1 as [|r older Hr Ho IH]; cbn [settle]; [constructor|].
  destruct (Nat.eqb k (List.length older)); constructor; assumption.
Qed.

Lemma find_run_In (k : nat) (rs : list Run) (r : Run) :
  find_run k rs = Some r -> In r rs.
Proof.
  induction rs as [|r' older IH]; cbn [find_run]; [discriminate|].
  destruct (Nat.eqb k (List.length older)).
  - intros [= <-]. now left.
  - intros H. right. now apply IH.
Qed.

Lemma step_older_ignored (s : Page) (ev : event) :
  older_ignored (runs s) -> older_ignored (runs (step s ev)).
Proof.
  intros H. destruct ev as [user list|k fetch|]; cbn [step].
  - destruct user as [u|]; [destruct (as_array (or_empty list))|];
      cbn [runs older_ignored]; now apply cleanup_ignored.
  - destruct (find_run k (runs s)) as [r|]; [|exact H].
    assert (older_ignored (settle k (runs s))) as H'.
    { destruct (runs s) as [|r' older]; [exact I|]. cbn [settle older_ignored] in *.
      destruct (Nat.eqb k (List.length older)); cbn [older_ignored]; [exact H|].
      now apply settle_ignored. }
    destruct (awaiting r); [|exact H]. now destruct (ignore r).
  - cbn [runs]. destruct (runs s); [exact I | exact H].
Qed.

Lemma exec_older_ignored (evs : list event) (s : Page) :
  older_ignored (runs s) -> older_ignored (runs (exec s evs)).
Proof.
  revert s. induction evs as [|ev evs IH]; intros s H; [exact H|].
  apply (IH (step s ev)). now apply step_older_ignored.
Qed.

Lemma settle_absent (k : nat) (rs : list Run) :
  find_run k rs = None -> settle k rs = rs.
Proof.
  induction rs as [|r older IH]; [reflexivity|]. cbn [find_run settle].
  destruct (Nat.eqb k (List.length older)); [discriminate|].
  intros H. now rewrite IH.
Qed.

(** One settling, seen from the newest run [mkRun l false aw]. *)
Lemma step_settles (t : Page) (k : nat) (fetch : nat -> value -> Res value)
      (l : list value) (aw : bool) (older : list Run) :
  runs t = mkRun l false aw :: older -> Forall ignored older ->
  exists older',
    Forall ignored older' /\ List.length older' = List.length older
    /\ if Nat.eqb k (List.length older) && aw
       then runs (step t (Settles k fetch)) = mkRun l false false :: older'
            /\ loading (step t (Settles k fetch)) = false
            /\ items (step t (Settles k fetch)) = loaded fetch l
       else runs (step t (Settles k fetch)) = mkRun l false aw :: older'
            /\ loading (step t (Settles k fetch)) = loading t
            /\ items (step t (Settles k fetch)) = items t.
Proof.
  intros Hr Ho. cbn [step]. rewrite Hr. cbn [find_run settle ids ignore awaiting].
  destruct (Nat.eqb k (List.length older)) eqn:Ek; cbn [andb ids ignore awaiting].
  - exists older. split; [exact Ho|]. split; [reflexivity|].
    destruct aw; cbn [runs loading items]; [now repeat split|].
    now rewrite Hr.
  - destruct (find_run k older) as [r|] eqn:Ef.
    + assert (ignore r = true) as Hi.
      { rewrite Forall_forall in Ho. apply Ho. now apply find_run_In in Ef. }
      rewrite Hi. destruct (awaiting r).
      * exists (settle k older). split; [now apply settle_ignored|].
        split; [apply settle_length|]. cbn [runs loading items]. now repeat split.
      * exists older. split; [exact Ho|]. split; [reflexivity|].
        rewrite Hr. now repeat split.
    + exists older. split; [exact Ho|]. split; [reflexivity|].
      rewrite Hr. now repeat split.
Qed.

Lemma exec_settles (l : list value) (evs : list event) (t : Page) (aw : bool)
      (older : list Run) :
  forallb is_settles evs = true ->
  runs t = mkRun l false aw :: older -> Forall ignored older ->
  match (if aw then first_settled (List.length older) evs else None) with
  | Some fetch => loading (exec t evs) = false /\ items (exec t evs) = loaded fetch l
  | None => loading (exec t evs) = loading t /\ items (exec t evs) = items t
  end.
Proof.
  revert t aw older.
  induction evs as [|ev evs IH]; intros t aw older Hev Hr Ho.
  - cbn [first_settled exec fold_left]. now destruct aw.
  - cbn [forallb] in Hev. apply andb_prop in Hev as [Hs Hev].
    destruct ev as [| k fetch |]; try discriminate.
    cbn [exec fold_left]. fold (exec (step t (Settles k fetch)) evs).
    destruct (step_settles t k fetch l aw older Hr Ho) as (older' & Ho' & Hlen & Hstep).
    cbn [first_settled].
    destruct (Nat.eqb k (List.length older)) eqn:Ek; cbn [andb] in Hstep.
    + destruct aw.
      * destruct Hstep as (Hr' & Hl' & Hi').
        pose proof (IH _ false older' Hev Hr' Ho') as H. cbn iota in H.
        destruct H as [H1 H2]. now rewrite H1, H2, Hl', Hi'.
      * destruct Hstep as (Hr' & Hl' & Hi').
        pose proof (IH _ false older' Hev Hr' Ho') as H. cbn iota in H.
        destruct H as [H1 H2]. now rewrite H1, H2, Hl', Hi'.
    + destruct Hstep as (Hr' & Hl' & Hi').
      pose proof (IH _ aw older' Hev Hr' Ho') as H. rewrite Hlen in H.
      destruct aw; [|destruct H as [H1 H2]; now rewrite H1, H2, Hl', Hi'].
      destruct (first_settled (List.length older) evs).
      * exact H.
      * destruct H as [H1 H2]. now rewrite H1, H2, Hl', Hi'.
Qed.

(** X17. A list page shows the answer to its newest load only.  After the
    effect has run for a signed-in user with the list [l], whatever loads
    were under way before, and in whatever order the loads finish: once
    the newest load has finished, the page shows the details it fetched
    for [l] (without the failed requests) and is no longer loading; until
    then it keeps its items and is loading.  Answers to older loads are
    never shown. *)
Theorem newest_load_decides (evs0 : list event) (u : string) (lst : value)
        (l : list value) (evs : list event) :
  as_array (or_empty lst) = Ok l ->
  forallb is_settles evs = true ->
  let s := exec mounted evs0 in
  let s' := exec s (Effect (Some u) lst :: evs) in
  match first_settled (List.length (runs s)) evs with
  | Some fetch => loading s' = false /\ items s' = loaded fetch l
  | None => loading s' = true /\ items s' = items s
  end.
Proof.
  intros Hl Hev s s'. subst s'.
  cbn [exec fold_left]. fold (exec (step s (Effect (Some u) lst)) evs).
  assert (older_ignored (runs s)) as Hs.
  { apply exec_older_ignored. exact I. }
  pose proof (exec_settles l evs (step s (Effect (Some u) lst)) true
                (cleanup (runs s)) Hev) as H.
  cbn [step] in H. rewrite Hl in H. cbn [runs loading items] in H.
  rewrite cleanup_length in H.
  specialize (H eq_refl (cleanup_ignored _ Hs)).
  cbn [step]. rewrite Hl. exact H.
Qed.

Lemma newest_load_decides_witness :
  as_array (or_empty (VArr [VNum 11; VNum 12])) = Ok [VNum 11; VNum 12]
  /\ forallb is_settles
       [Settles 1 (fun _ id => Ok id); Settles 0 (fun _ _ => Ok VNull)] = true
  /\ items (exec mounted
              [Effect (Some "A") (VArr [VNum 10]);
               Effect (Some "A") (VArr [VNum 11; VNum 12]);
               Settles 1 (fun _ id => Ok id); Settles 0 (fun _ _ => Ok VNull)])
     = [VNum 11; VNum 12].
Proof.
  split; [reflexivity|]. split; [reflexivity|].
  exact (proj2 (newest_load_decides [Effect (Some "A") (VArr [VNum 10])] "A"
                  (VArr [VNum 11; VNum 12]) [VNum 11; VNum 12]
                  [Settles 1 (fun _ id => Ok id); Settles 0 (fun _ _ => Ok VNull)]
                  eq_refl eq_refl)).
Defined.

Lemma step_none_live (s : Page) (ev : event) :
  signed_out ev = true -> none_live (runs s) ->
  none_live (runs (step s ev))
  /\ items (step s ev) = items s /\ loading (step s ev) = loading s.
Proof.
  intros Hev H. unfold none_live in *.
  assert (Forall (fun r => ignore r = true \/ awaiting r = false) (cleanup (runs s)))
    as Hc.
  { destruct (runs s) as [|r older]; [constructor|]. cbn [cleanup].
    inversion H; subst. constructor; [now left | assumption]. }
  destruct ev as [[u|] list|k fetch|]; try discriminate; cbn [step].
  - cbn [runs items loading]. split; [|now split].
    constructor; [now right | exact Hc].
  - destruct (find_run k (runs s)) as [r|] eqn:Ef; [|now repeat split].
    destruct (awaiting r) eqn:Ea; [|now repeat split].
    assert (ignore r = true) as Hi.
    { rewrite Forall_forall in H. apply find_run_In in Ef.
      destruct (H r Ef) as [Hi|Hi]; [exact Hi | congruence]. }
    rewrite Hi. cbn [runs items loading]. split; [|now split].
    clear -H. induction H as [|r' older Hr Ho IH]; cbn [settle]; [constructor|].
    destruct (Nat.eqb k (List.length older)); constructor; try assumption.
    now right.
  - cbn [runs items loading]. now repeat split.
Qed.

Lemma exec_none_live (evs : list event) (s : Page) :
  forallb signed_out evs = true -> none_live (runs s) ->
  items (exec s evs) = items s /\ loading (exec s evs) = loading s.
Proof.
  revert s. induction evs as [|ev evs IH]; intros s Hev H; [now split|].
  cbn [forallb] in Hev. apply andb_prop in Hev as [Hs Hev].
  destruct (step_none_live s ev Hs H) as (H' & Hi & Hl).
  cbn [exec fold_left]. fold (exec (step s ev) evs).
  destruct (IH _ Hev H') as [H1 H2]. now rewrite H1, H2.
Qed.

(** X18. Without a user a list page never changes what it shows.  When
    the effect runs with [user] null, the page keeps its items and its
    loading flag from then on, whichever loads finish, until a user is
    there again: a visitor who is signed out from the start sees the
    placeholders only ([loading] stays true), and a sign-out during a load
    leaves the page loading with the items of the user who left. *)
Theorem signed_out_page_is_frozen (evs0 : list event) (lst : value)
        (evs : list event) :
  forallb signed_out evs = true ->
  let s := exec mounted evs0 in
  let s' := exec s (Effect None lst :: evs) in
  items s' = items s /\ loading s' = loading s.
Proof.
  intros Hev s s'. subst s'.
  cbn [exec fold_left]. fold (exec (step s (Effect None lst)) evs).
  assert (older_ignored (runs s)) as Hs by (apply exec_older_ignored; exact I).
  destruct (exec_none_live evs (step s (Effect None lst)) Hev) as [H1 H2].
  { cbn [step runs]. constructor; [now right|].
    eapply Forall_impl; [|apply (cleanup_ignored _ Hs)]. intros r Hr. now left. }
  now rewrite H1, H2.
Qed.

Lemma signed_out_page_is_frozen_witness :
  forallb signed_out [Settles 0 (fun _ id => Ok id); Unmount] = true
  /\ loading (exec mounted
                [Effect (Some "A") (VArr [VNum 10]); Effect None (VArr [VNum 10]);
                 Settles 0 (fun _ id => Ok id); Unmount])
     = true.
Proof.
  split; [reflexivity|].
  exact (proj2 (signed_out_page_is_frozen [Effect (Some "A") (VArr [VNum 10])]
                  (VArr [VNum 10]) [Settles 0 (fun _ id => Ok id); Unmount]
                  eq_refl)).
Defined.

End ListPageFacts.

(* ================================================================== *)
(** * The movie page *)

Section DetailPageFacts.
Import ListPage.
Import DetailPage.

Lemma detail_step_older_ignored (s : Page) (ev : event) :
  older_ignored (runs s) -> older_ignored (runs (step s ev)).
Proof.
  intros H. destruct ev as [id|k data|]; cbn [step].
  - destruct (truthy id); cbn [runs older_ignored]; now apply cleanup_ignored.
  - destruct (ListPage.find_run k (runs s)) as [r|]; [|exact H].
    assert (older_ignored (ListPage.settle k (runs s))) as H'.
    { destruct (runs s) as [|r' older]; [exact I|].
      cbn [ListPage.settle older_ignored] in *.
      destruct (Nat.eqb k (List.length older)); cbn [older_ignored]; [exact H|].
      now apply settle_ignored. }
    destruct (ListPage.awaiting r); [|exact H].
    destruct (ListPage.ignore r); [exact H'|].
    destruct data as [d|e]; [destruct (truthy d)|]; exact H'.
  - cbn [runs]. destruct (runs s); [exact I | exact H].
Qed.

Lemma detail_exec_older_ignored (evs : list event) (s : Page) :
  older_ignored (runs s) -> older_ignored (runs (exec s evs)).
Proof.
  revert s. induction evs as [|ev evs IH]; intros s H; [exact H|].
  apply (IH (step s ev)). now apply detail_step_older_ignored.
Qed.

Lemma detail_step_settles (t : Page) (k : nat) (data : Res value)
      (l : list value) (aw : bool) (older : list ListPage.Run) :
  runs t = ListPage.mkRun l false aw :: older -> Forall ignored older ->
  exists older',
    Forall ignored older' /\ List.length older' = List.length older
    /\ if Nat.eqb k (List.length older) && aw
       then runs (step t (Settles k data)) = ListPage.mkRun l false false :: older'
            /\ written data t (step t (Settles k data))
       else runs (step t (Settles k data)) = ListPage.mkRun l false aw :: older'
            /\ same_state t (step t (Settles k data)).
Proof.
  intros Hr Ho. unfold written, same_state. cbn [step]. rewrite Hr.
  cbn [ListPage.find_run ListPage.settle].
  destruct (Nat.eqb k (List.length older)) eqn:Ek;
    cbn [andb ListPage.ids ListPage.ignore ListPage.awaiting].
  - exists older. split; [exact Ho|]. split; [reflexivity|].
    destruct aw; [|now rewrite Hr].
    destruct data as [d|e]; [destruct (truthy d) eqn:Ed|];
      cbn [runs loading movie err]; rewrite ?Ed; now repeat split.
  - destruct (ListPage.find_run k older) as [r|] eqn:Ef.
    + assert (ListPage.ignore r = true) as Hi.
      { rewrite Forall_forall in Ho. apply Ho. now apply find_run_In in Ef. }
      rewrite Hi. destruct (ListPage.awaiting r).
      * exists (ListPage.settle k older). split; [now apply settle_ignored|].
        split; [apply settle_length|]. cbn [runs loading movie err]. now repeat split.
      * exists older. split; [exact Ho|]. split; [reflexivity|].
        rewrite Hr. now repeat split.
    + exists older. split; [exact Ho|]. split; [reflexivity|].
      rewrite Hr. now repeat split.
Qed.

Lemma detail_exec_settled (l : list value) (evs : list event) (t : Page)
      (older : list ListPage.Run) :
  forallb is_settles evs = true ->
  runs t = ListPage.mkRun l false false :: older -> Forall ignored older ->
  same_state t (exec t evs).
Proof.
  revert t older. induction evs as [|ev evs IH]; intros t older Hev Hr Ho.
  - now repeat split.
  - cbn [forallb] in Hev. apply andb_prop in Hev as [Hs Hev].
    destruct ev as [| k data |]; try discriminate.
    cbn [exec fold_left]. fold (exec (step t (Settles k data)) evs).
    destruct (detail_step_settles t k data l false older Hr Ho)
      as (older' & Ho' & _ & Hstep).
    rewrite Bool.andb_false_r in Hstep. destruct Hstep as (Hr' & H1 & H2 & H3).
    destruct (IH _ older' Hev Hr' Ho') as (H1' & H2' & H3').
    unfold same_state. now rewrite H1', H2', H3'.
Qed.

Lemma detail_exec_settles (l : list value) (evs : list event) (t : Page)
      (older : list ListPage.Run) :
  forallb is_settles evs = true ->
  runs t = ListPage.mkRun l false true :: older -> Forall ignored older ->
  match first_settled (List.length older) evs with
  | Some data => written data t (exec t evs)
  | None => same_state t (exec t evs)
  end.
Proof.
  revert t older. induction evs as [|ev evs IH]; intros t older Hev Hr Ho.
  - cbn [first_settled]. now repeat split.
  - cbn [forallb] in Hev. apply andb_prop in Hev as [Hs Hev].
    destruct ev as [| k data |]; try discriminate.
    cbn [exec fold_left]. fold (exec (step t (Settles k data)) evs).
    destruct (detail_step_settles t k data l true older Hr Ho)
      as (older' & Ho' & Hlen & Hstep).
    cbn [first_settled]. rewrite Bool.andb_true_r in Hstep.
    destruct (Nat.eqb k (List.length older)) eqn:Ek.
    + destruct Hstep as (Hr' & Hl & Hw).
      destruct (detail_exec_settled l evs _ older' Hev Hr' Ho') as (H1 & H2 & H3).
      unfold written. rewrite H1, H2, H3. now split.
    + destruct Hstep as (Hr' & H1 & H2 & H3).
      pose proof (IH _ older' Hev Hr' Ho') as H. rewrite Hlen in H.
      destruct (first_settled (List.length older) evs) as [data'|].
      * unfold written in *. now rewrite H1, H3 in H.
      * unfold same_state in *. now rewrite H1, H2, H3 in H.
Qed.

(** X19. The movie page shows the answer to its newest load only.  After
    the effect has run for an id, whatever loads were under way before and
    in whatever order the loads finish: until the newest load has finished
    the page shows the placeholders; afterwards it shows the movie that
    load fetched, or [Movie not found] when it fetched nothing, or
    [Failed to load movie details] when it failed.  The movie of an older
    id is never shown for the new one. *)
Theorem newest_movie_is_shown (evs0 : list event) (id : value) (evs : list event) :
  truthy id = true ->
  forallb is_settles evs = true ->
  let s := exec mounted evs0 in
  render (exec s (Effect id :: evs))
  = match first_settled (List.length (runs s)) evs with
    | None => Skeleton
    | Some (Ok d) => if truthy d then Detail d else NotFound "Movie not found"
    | Some (Throw _) => NotFound "Failed to load movie details"
    end.
Proof.
  intros Hid Hev s.
  cbn [exec fold_left]. fold (exec (step s (Effect id)) evs).
  assert (older_ignored (runs s)) as Hs.
  { apply detail_exec_older_ignored. exact I. }
  pose proof (detail_exec_settles [id] evs (step s (Effect id))
                (ListPage.cleanup (runs s)) Hev) as H.
  cbn [step] in H. rewrite Hid in H. cbn [runs] in H.
  rewrite cleanup_length in H.
  specialize (H eq_refl (cleanup_ignored _ Hs)).
  cbn [step]. rewrite Hid.
  destruct (first_settled (List.length (runs s)) evs) as [data|].
  - destruct H as [Hl Hd]. unfold render. rewrite Hl.
    destruct data as [d|e].
    + destruct (truthy d) eqn:Ed.
      * destruct Hd as [Hm He]. cbn [err] in He. now rewrite He, Hm, Ed.
      * destruct Hd as [_ He]. now rewrite He.
    + destruct Hd as [_ He]. now rewrite He.
  - destruct H as (_ & Hl & _). unfold render. now rewrite Hl.
Qed.

Lemma newest_movie_is_shown_witness :
  truthy (VStr "12") = true
  /\ forallb is_settles
       [Settles 1 (Ok VNull); Settles 0 (Ok (VObj [("id", VNum 11)]))] = true
  /\ render (exec mounted
               [Effect (VStr "11"); Effect (VStr "12");
                Settles 1 (Ok VNull); Settles 0 (Ok (VObj [("id", VNum 11)]))])
     = NotFound "Movie not found".
Proof.
  split; [reflexivity|]. split; [reflexivity|].
  exact (newest_movie_is_shown [Effect (VStr "11")] (VStr "12")
           [Settles 1 (Ok VNull); Settles 0 (Ok (VObj [("id", VNum 11)]))]
           eq_refl eq_refl).
Defined.

End DetailPageFacts.

(* ================================================================== *)
(** * [formatRuntime] *)

Lemma span_digits_before (ds : string) (c : ascii) (rest : string) :
  all_digits ds = true -> is_digit c = false ->
  span_digits (ds +++ String c rest) = (ds, String c rest).
Proof.
  intros Hds Hc. induction ds as [|d ds IH]; cbn [all_digits String.append span_digits] in *.
  - now rewrite Hc.
  - apply andb_true_iff in Hds as [-> Hds]. now rewrite (IH Hds).
Qed.

Lemma print_N_cancel (a b : N) (c c' : ascii) (r r' : string) :
  is_digit c = false -> is_digit c' = false ->
  print_N a +++ String c r = print_N b +++ String c' r' ->
  a = b /\ String c r = String c' r'.
Proof.
  intros Hc Hc' H.
  pose proof (span_digits_before _ c r (print_N_digits a) Hc) as Ha.
  pose proof (span_digits_before _ c' r' (print_N_digits b) Hc') as Hb.
  rewrite H, Hb in Ha. injection Ha as E1 E2 E3.
  split; [symmetry; now apply print_N_inj | now subst].
Qed.

Lemma print_Z_cancel (a b : Z) (c c' : ascii) (r r' : string) :
  is_digit c = false -> is_digit c' = false ->
  print_Z a +++ String c r = print_Z b +++ String c' r' ->
  a = b /\ String c r = String c' r'.
Proof.
  intros Hc Hc' H.
  assert (forall n s, String "-" s <> print_N n +++ String c r
                      /\ String "-" s <> print_N n +++ String c' r') as Hminus.
  { intros n s. destruct (print_N_head n) as (d & t & E & Hd). rewrite E.
    cbn [String.append]. split; intros [= <- _]; discriminate. }
  assert (forall z, (0 <= z)%Z -> print_Z z = print_N (Z.to_N z)) as Hpos.
  { intros z Hz. destruct z; [reflexivity | reflexivity | lia]. }
  destruct (Z.leb_spec 0 a) as [Ha|Ha], (Z.leb_spec 0 b) as [Hb|Hb].
  - rewrite (Hpos a Ha), (Hpos b Hb) in H.
    apply print_N_cancel in H as [E1 E2]; [|assumption..].
    split; [lia | exact E2].
  - exfalso. rewrite (Hpos a Ha) in H. destruct b as [| |q]; try lia.
    cbn [print_Z String.append] in H. symmetry in H.
    now apply (proj1 (Hminus _ _)) in H.
  - exfalso. rewrite (Hpos b Hb) in H. destruct a as [| |p]; try lia.
    cbn [print_Z String.append] in H.
    now apply (proj2 (Hminus _ _)) in H.
  - destruct a as [| |p]; try lia. destruct b as [| |q]; try lia.
    cbn [print_Z String.append] in H. injection H as H.
    apply print_N_cancel in H as [E1 E2]; [|assumption..].
    split; [congruence | exact E2].
Qed.

Lemma formatRuntime_not_Unknown (m : Z) :
  m <> 0%Z -> formatRuntime (Some m) <> "Unknown"%string.
Proof.
  intros Hm. unfold formatRuntime. apply Z.eqb_neq in Hm. rewrite Hm.
  cbn zeta.
  assert (forall z s, print_Z z +++ s <> "Unknown"%string) as H.
  { intros z s. destruct (print_Z_head z) as (c & t & E & Hc). rewrite E.
    cbn [String.append]. intros [= -> _]. now destruct Hc. }
  destruct (Z.eqb (m / 60) 0); [apply H|].
  destruct (Z.eqb (Z.rem m 60) 0); apply H.
Qed.

(** X20. [formatRuntime] gives different runtimes different texts: two
    runtimes are shown alike only if they are the same number of minutes,
    or if both are shown as [Unknown], which is the text of a runtime that
    is 0 or missing and of no other. *)
Theorem formatRuntime_distinguishes (a b : option Z) :
  formatRuntime a = formatRuntime b
  <-> a = b \/ (unknown a = true /\ unknown b = true).
Proof.
  split.
  - intros H.
    destruct (unknown a) eqn:Ua, (unknown b) eqn:Ub; [now right | | |].
    + exfalso. destruct b as [y|]; [|discriminate]. cbn [unknown] in Ub.
      apply Z.eqb_neq in Ub. apply (formatRuntime_not_Unknown y Ub).
      rewrite <- H. destruct a as [x|]; [|reflexivity].
      cbn [unknown] in Ua. unfold formatRuntime. now rewrite Ua.
    + exfalso. destruct a as [x|]; [|discriminate]. cbn [unknown] in Ua.
      apply Z.eqb_neq in Ua. apply (formatRuntime_not_Unknown x Ua).
      rewrite H. destruct b as [y|]; [|reflexivity].
      cbn [unknown] in Ub. unfold formatRuntime. now rewrite Ub.
    + left. destruct a as [x|]; [|discriminate]. destruct b as [y|]; [|discriminate].
      cbn [unknown] in Ua, Ub. unfold formatRuntime in H. rewrite Ua, Ub in H.
      cbn zeta in H. apply Z.eqb_neq in Ua, Ub. f_equal.
      destruct (Z.eqb_spec (x / 60) 0) as [Hx|Hx], (Z.eqb_spec (y / 60) 0) as [Hy|Hy];
        [| destruct (Z.eqb_spec (Z.rem y 60) 0) as [Ry|Ry]
         | destruct (Z.eqb_spec (Z.rem x 60) 0) as [Rx|Rx]
         | destruct (Z.eqb_spec (Z.rem x 60) 0) as [Rx|Rx],
                    (Z.eqb_spec (Z.rem y 60) 0) as [Ry|Ry]];
        cbn [String.append] in H;
        apply print_Z_cancel in H as [E1 E2]; try reflexivity;
        try discriminate E2.
      * Z.to_euclidean_division_equations. lia.
      * Z.to_euclidean_division_equations. lia.
      * injection E2 as E2. apply print_Z_cancel in E2 as [E2 _]; try reflexivity.
        Z.to_euclidean_division_equations. lia.
  - intros [->|[Ua Ub]]; [reflexivity|].
    destruct a as [x|], b as [y|]; cbn [unknown] in Ua, Ub; unfold formatRuntime;
      now rewrite ?Ua, ?Ub.
Qed.
